(** * A verified model of the calculator engine of [script.js]

    The calculator keeps three module-level variables ([previousValue],
    [currentOperation], [shouldResetDisplay]) and two pieces of DOM text
    ([mainDisplay.textContent], [operationDisplay.textContent]).  Every
    handler reads the display text back through [parseFloat] and writes
    results with [String(...)], so the model starts with the JavaScript
    Number type: binary64 values, the arithmetic operators, [parseFloat]
    and the Number-to-String conversion, each as ECMAScript defines it.
    The handlers of [script.js] follow, as functions on an explicit state,
    and then the properties proved of them. *)

From Stdlib Require Import ZArith QArith Qround Qpower Qreduction Lia Lqa.
From Stdlib Require Import List String Ascii Bool.
Import ListNotations.

Local Open Scope Z_scope.

(** ** JavaScript numbers

    The operators [+ - * / %] of ECMAScript are the IEEE 754 operations
    in round-to-nearest-even mode: the exact result of the operation on
    the real numbers the operands denote, rounded.  The model says just
    that, with exact rational arithmetic ([Q]) and one rounding
    function. *)

Module JSNumber.

(** A Number is a binary64 value.  [Finite neg m e] stands for
    [(-1)^neg * m * 2^e]. *)
Inductive number : Type :=
| NaN
| Infinity (neg : bool)
| Zero (neg : bool)
| Finite (neg : bool) (m : positive) (e : Z).

Definition number_eqb (x y : number) : bool :=
  match x, y with
  | NaN, NaN => true
  | Infinity s, Infinity t => Bool.eqb s t
  | Zero s, Zero t => Bool.eqb s t
  | Finite s m e, Finite t n f => Bool.eqb s t && Pos.eqb m n && Z.eqb e f
  | _, _ => false
  end.

(** The binary64 values: a 53-bit significand with exponent between -1074
    and 971, normalised unless the exponent is the least one. *)
Definition canonical (x : number) : Prop :=
  match x with
  | Finite _ m e =>
      Zpos m < 2 ^ 53 /\ -1074 <= e <= 971 /\ (e = -1074 \/ 2 ^ 52 <= Zpos m)
  | _ => True
  end.

Definition is_finite (x : number) : bool :=
  match x with
  | Zero _ | Finite _ _ _ => true
  | _ => false
  end.

Definition sign_bit (x : number) : bool :=
  match x with
  | NaN => false
  | Infinity s | Zero s | Finite s _ _ => s
  end.

Definition pow2 (k : Z) : Q := (2 # 1) ^ k.

Definition signed (neg : bool) (q : Q) : Q := if neg then Qopp q else q.

(** The real number a finite value denotes (0 for the others). *)
Definition value (x : number) : Q :=
  match x with
  | Finite neg m e => signed neg (inject_Z (Zpos m) * pow2 e)
  | _ => 0%Q
  end.

(** *** Rounding to nearest, ties to even *)

(** [floor_log2 q] is the [L] with [2^L <= q < 2^(L+1)], for [q > 0]. *)
Definition floor_log2 (q : Q) : Z :=
  let l := Z.log2 (Qnum q) - Z.log2 (Zpos (Qden q)) in
  if Qle_bool (pow2 l) q then l else l - 1.

Definition nearest_even (t : Q) : Z :=
  let f := Qfloor t in
  match Qcompare (t - inject_Z f) (1 # 2) with
  | Lt => f
  | Gt => f + 1
  | Eq => if Z.even f then f else f + 1
  end.

Definition round_pos (neg : bool) (q : Q) : number :=
  let L := floor_log2 q in
  let e := Z.max (L - 52) (-1074) in
  let m := nearest_even (q / pow2 e) in
  let '(m', e') := if m =? 2 ^ 53 then (2 ^ 52, e + 1) else (m, e) in
  match m' with
  | Zpos p => if e' >? 971 then Infinity neg else Finite neg p e'
  | _ => Zero neg
  end.

(** The Number nearest to the rational [q]; an exact zero is [+0]. *)
Definition round (q : Q) : number :=
  let r := Qred q in
  match Qnum r with
  | Z0 => Zero false
  | Zpos _ => round_pos false r
  | Zneg _ => round_pos true (Qopp r)
  end.

(** *** The arithmetic operators *)

Definition opp (x : number) : number :=
  match x with
  | NaN => NaN
  | Infinity s => Infinity (negb s)
  | Zero s => Zero (negb s)
  | Finite s m e => Finite (negb s) m e
  end.

Definition add (a b : number) : number :=
  match a, b with
  | NaN, _ | _, NaN => NaN
  | Infinity s, Infinity t => if Bool.eqb s t then Infinity s else NaN
  | Infinity s, _ | _, Infinity s => Infinity s
  | Zero s, Zero t => Zero (s && t)
  | Zero _, x | x, Zero _ => x
  | Finite _ _ _, Finite _ _ _ => round (value a + value b)
  end.

Definition sub (a b : number) : number := add a (opp b).

Definition mul (a b : number) : number :=
  match a, b with
  | NaN, _ | _, NaN => NaN
  | Infinity _, Zero _ | Zero _, Infinity _ => NaN
  | Infinity s, (Infinity t | Finite t _ _)
  | Finite s _ _, Infinity t => Infinity (xorb s t)
  | Zero s, (Zero t | Finite t _ _)
  | Finite s _ _, Zero t => Zero (xorb s t)
  | Finite _ _ _, Finite _ _ _ => round (value a * value b)
  end.

Definition div (a b : number) : number :=
  match a, b with
  | NaN, _ | _, NaN => NaN
  | Infinity _, Infinity _ | Zero _, Zero _ => NaN
  | Infinity s, (Zero t | Finite t _ _)
  | Finite s _ _, Zero t => Infinity (xorb s t)
  | (Zero s | Finite s _ _), Infinity t
  | Zero s, Finite t _ _ => Zero (xorb s t)
  | Finite _ _ _, Finite _ _ _ => round (value a / value b)
  end.

(** Truncation of a rational towards zero. *)
Definition Qtrunc (q : Q) : Z :=
  if Qle_bool 0 q then Qfloor q else Qceiling q.

(** [a % b]: [a - b * q] with [q] the quotient truncated towards zero;
    a zero result takes the sign of the dividend. *)
Definition rem (a b : number) : number :=
  match a, b with
  | NaN, _ | _, NaN => NaN
  | Infinity _, _ | _, Zero _ => NaN
  | _, Infinity _ => a
  | Zero _, Finite _ _ _ => a
  | Finite s _ _, Finite _ _ _ =>
      let r := (value a - value b * inject_Z (Qtrunc (value a / value b)))%Q in
      if Qeq_bool r 0 then Zero s else round r
  end.

(** [x === 0] *)
Definition is_zero (x : number) : bool :=
  match x with
  | Zero _ => true
  | _ => false
  end.

(** *** [parseFloat]

    The longest prefix of the trimmed text that is a StrDecimalLiteral,
    read as a decimal and rounded; [NaN] when there is no such prefix. *)

Definition is_digit (c : ascii) : bool :=
  let n := nat_of_ascii c in (48 <=? n)%nat && (n <=? 57)%nat.

Definition digit_value (c : ascii) : Z := Z.of_nat (nat_of_ascii c) - 48.

Definition digit_char (d : Z) : ascii := ascii_of_nat (48 + Z.to_nat d).

(** The integer written by a run of decimal digits. *)
Definition digits_value (ds : list ascii) : Z :=
  fold_left (fun acc c => acc * 10 + digit_value c) ds 0.

(** The longest run of decimal digits at the head of [cs], and the rest. *)
Fixpoint span_digits (cs : list ascii) : list ascii * list ascii :=
  match cs with
  | c :: r =>
      if is_digit c
      then let (ds, r') := span_digits r in (c :: ds, r')
      else ([], cs)
  | [] => ([], [])
  end.

Fixpoint starts_with (p cs : list ascii) : bool :=
  match p, cs with
  | [], _ => true
  | a :: p', c :: cs' => Ascii.eqb a c && starts_with p' cs'
  | _ :: _, [] => false
  end.

(** White space and line terminators within ASCII; [parseFloat] skips
    them at the start of its argument. *)
Definition is_space (c : ascii) : bool :=
  let n := nat_of_ascii c in
  ((9 <=? n)%nat && (n <=? 13)%nat) || (n =? 32)%nat.

Fixpoint trim_start (cs : list ascii) : list ascii :=
  match cs with
  | c :: r => if is_space c then trim_start r else cs
  | [] => []
  end.

(** ExponentPart, when one is present at the head of [cs]; 0 otherwise. *)
Definition parse_exponent (cs : list ascii) : Z :=
  match cs with
  | c :: r =>
      if Ascii.eqb c "e" || Ascii.eqb c "E" then
        let '(sneg, r') :=
          match r with
          | "+"%char :: r' => (false, r')
          | "-"%char :: r' => (true, r')
          | _ => (false, r)
          end in
        match fst (span_digits r') with
        | [] => 0
        | ds => if sneg then - digits_value ds else digits_value ds
        end
      else 0
  | [] => 0
  end.

(** The Number for [(-1)^neg * mant * 10^exp10], [mant >= 0]. *)
Definition decimal_value (neg : bool) (mant exp10 : Z) : number :=
  if mant <=? 0 then Zero neg
  else round_pos neg (Qred (inject_Z mant * (10 # 1) ^ exp10)).

(** StrUnsignedDecimalLiteral: the longest prefix of [cs] that is
    [Infinity], or digits with an optional fraction and exponent. *)
Definition parse_unsigned (neg : bool) (cs : list ascii) : number :=
  if starts_with (list_ascii_of_string "Infinity") cs then Infinity neg
  else
    let (ip, r1) := span_digits cs in
    let (fp, r2) :=
      match r1 with
      | "."%char :: r => span_digits r
      | _ => ([], r1)
      end in
    match ip ++ fp with
    | [] => NaN
    | ds => decimal_value neg (digits_value ds)
              (parse_exponent r2 - Z.of_nat (List.length fp))
    end.

Definition parse_chars (cs : list ascii) : number :=
  match trim_start cs with
  | "+"%char :: r => parse_unsigned false r
  | "-"%char :: r => parse_unsigned true r
  | r => parse_unsigned false r
  end.

Definition parseFloat (s : string) : number :=
  parse_chars (list_ascii_of_string s).

(** *** Number to String

    Number::toString of ECMAScript in radix 10: the digits [s] and the
    position [n] of the decimal point are such that [s * 10^(n-k)] rounds
    to the Number, with the number [k] of digits as small as possible. *)

(** The digits of [n] pushed on [acc]; [fuel] bounds their number. *)
Fixpoint digits_fuel (fuel : nat) (n : Z) (acc : list ascii) : list ascii :=
  match fuel with
  | O => acc
  | S f =>
      let acc' := digit_char (n mod 10) :: acc in
      if n / 10 =? 0 then acc' else digits_fuel f (n / 10) acc'
  end.

(** The decimal digits of [n >= 0], most significant first. *)
Definition digits_of (n : Z) : list ascii :=
  digits_fuel (S (Z.to_nat (Z.log2 n))) n [].

Fixpoint drop_zeros (cs : list ascii) : list ascii :=
  match cs with
  | c :: r => if Ascii.eqb c "0" then drop_zeros r else cs
  | [] => []
  end.

Definition strip_zeros (ds : list ascii) : list ascii :=
  rev (drop_zeros (rev ds)).

(** The text for the digits [ds] (the first one not 0) scaled so that the
    decimal point sits after the [n]-th digit: plain notation when
    [-5 <= n <= 21], exponent notation otherwise. *)
Definition format (ds : list ascii) (n : Z) : list ascii :=
  let k := Z.of_nat (List.length ds) in
  if (-5 <=? n) && (n <=? 21) then
    if k <=? n then ds ++ repeat "0"%char (Z.to_nat (n - k))
    else if 0 <? n then
      firstn (Z.to_nat n) ds ++ "."%char :: skipn (Z.to_nat n) ds
    else "0"%char :: "."%char :: repeat "0"%char (Z.to_nat (- n)) ++ ds
  else
    let e := n - 1 in
    let es := (if e <? 0 then "-"%char else "+"%char) :: digits_of (Z.abs e) in
    match ds with
    | [] => []
    | [d] => d :: "e"%char :: es
    | d :: rest => d :: "."%char :: rest ++ "e"%char :: es
    end.

(** The [n] with [10^(n-1) <= v < 10^n], for [v > 0]. *)
Definition decimal_exponent (v : Q) : Z :=
  let est := Z.of_nat (List.length (digits_of (Qnum v)))
             - Z.of_nat (List.length (digits_of (Zpos (Qden v)))) in
  if Qle_bool ((10 # 1) ^ est) v then est + 1 else est.

(** The digits of the integer [s] without its trailing zeros, and the
    place of the decimal point when a [k]-digit integer has it after
    [n10] digits. *)
Definition reading (n10 k s : Z) : list ascii * Z :=
  let ds := digits_of s in
  (strip_zeros ds, n10 + (Z.of_nat (List.length ds) - k)).

(** Do the digits [ds] with the point after the [n]-th denote a decimal
    that rounds to [x]? *)
Definition reads_as (x : number) (r : list ascii * Z) : bool :=
  let (ds, n) := r in
  number_eqb
    (decimal_value false (digits_value ds) (n - Z.of_nat (List.length ds))) x.

(** A [k]-digit decimal that rounds to [x], if there is one: the
    neighbour of the exact value nearer to it first, the even one on a
    tie. *)
Definition try_digits (x : number) (k : Z) : option (list ascii * Z) :=
  let v := value x in
  let n10 := decimal_exponent v in
  let t := (v / (10 # 1) ^ (n10 - k))%Q in
  let lo := Qfloor t in
  let hi := lo + 1 in
  let lo_first :=
    match Qcompare (t - inject_Z lo) (inject_Z hi - t) with
    | Lt => true
    | Gt => false
    | Eq => Z.even lo
    end in
  let (r1, r2) :=
    if lo_first then (reading n10 k lo, reading n10 k hi)
    else (reading n10 k hi, reading n10 k lo) in
  if reads_as x r1 then Some r1
  else if reads_as x r2 then Some r2
  else None.

(** The first success of [try_digits] among [k], [k+1], ..., [fuel]
    attempts in all. *)
Fixpoint shortest (fuel : nat) (x : number) (k : Z)
  : option (list ascii * Z) :=
  match fuel with
  | O => None
  | S f =>
      match try_digits x k with
      | Some c => Some c
      | None => shortest f x (k + 1)
      end
  end.

(** The full decimal expansion of [m * 2^e]. *)
Definition exact_digits (m : positive) (e : Z) : list ascii * Z :=
  let '(i, p) := if 0 <=? e then (Zpos m * 2 ^ e, 0)
                 else (Zpos m * 5 ^ (- e), e) in
  let ds := digits_of i in
  (strip_zeros ds, Z.of_nat (List.length ds) + p).

(** The digits of a positive finite Number: as few as denote a decimal
    that rounds to it.  Seventeen digits are always enough for a binary64
    value; the full expansion stands behind them so that the function is
    total without appeal to that fact. *)
Definition shortest_digits (m : positive) (e : Z) : list ascii * Z :=
  match shortest 17 (Finite false m e) 1 with
  | Some r => r
  | None => exact_digits m e
  end.

Definition unsigned_text (m : positive) (e : Z) : list ascii :=
  let (ds, n) := shortest_digits m e in format ds n.

(** [String(x)] *)
Definition toString (x : number) : string :=
  match x with
  | NaN => "NaN"
  | Infinity false => "Infinity"
  | Infinity true => "-Infinity"
  | Zero _ => "0"
  | Finite neg m e =>
      string_of_list_ascii
        ((if neg then ["-"%char] else []) ++ unsigned_text m e)
  end.

End JSNumber.

Import JSNumber.

Local Open Scope string_scope.

(** ** The string operations the handlers use *)

(** [s.slice(start, end)] *)
Definition slice (s : string) (from to : Z) : string :=
  let len := Z.of_nat (String.length s) in
  let clamp (i : Z) := (if i <? 0 then Z.max (len + i) 0 else Z.min i len)%Z in
  let a := clamp from in
  let b := clamp to in
  substring (Z.to_nat a) (Z.to_nat (Z.max (b - a) 0)) s.

(** [s.includes(sub)] *)
Fixpoint includes (s sub : string) : bool :=
  prefix sub s ||
  match s with
  | String _ r => includes r sub
  | EmptyString => false
  end.

(** ** The calculator *)

Module Calculator.

(** The three state variables, the text of the two display elements, and
    the messages shown by [alert] so far (oldest first). *)
Record state : Type := {
  previousValue : option number;
  currentOperation : option string;
  shouldResetDisplay : bool;
  mainDisplay : string;
  operationDisplay : string;
  alerts : list string
}.

Definition set_previousValue (v : option number) (s : state) : state :=
  {| previousValue := v;
     currentOperation := currentOperation s;
     shouldResetDisplay := shouldResetDisplay s;
     mainDisplay := mainDisplay s;
     operationDisplay := operationDisplay s;
     alerts := alerts s |}.

Definition set_currentOperation (o : option string) (s : state) : state :=
  {| previousValue := previousValue s;
     currentOperation := o;
     shouldResetDisplay := shouldResetDisplay s;
     mainDisplay := mainDisplay s;
     operationDisplay := operationDisplay s;
     alerts := alerts s |}.

Definition set_shouldResetDisplay (b : bool) (s : state) : state :=
  {| previousValue := previousValue s;
     currentOperation := currentOperation s;
     shouldResetDisplay := b;
     mainDisplay := mainDisplay s;
     operationDisplay := operationDisplay s;
     alerts := alerts s |}.

(** [alert(msg)] *)
Definition alert (msg : string) (s : state) : state :=
  {| previousValue := previousValue s;
     currentOperation := currentOperation s;
     shouldResetDisplay := shouldResetDisplay s;
     mainDisplay := mainDisplay s;
     operationDisplay := operationDisplay s;
     alerts := alerts s ++ [msg] |}.

(** Truthiness of a string-or-null. *)
Definition truthy (o : option string) : bool :=
  match o with
  | None | Some "" => false
  | Some _ => true
  end.

Definition updateDisplay (value : string) (s : state) : state :=
  {| previousValue := previousValue s;
     currentOperation := currentOperation s;
     shouldResetDisplay := shouldResetDisplay s;
     mainDisplay := value;
     operationDisplay := operationDisplay s;
     alerts := alerts s |}.

Definition set_operationDisplay (text : string) (s : state) : state :=
  {| previousValue := previousValue s;
     currentOperation := currentOperation s;
     shouldResetDisplay := shouldResetDisplay s;
     mainDisplay := mainDisplay s;
     operationDisplay := text;
     alerts := alerts s |}.

Definition updateOperationDisplay
    (operation : option string) (value : option number) (s : state) : state :=
  match operation, value with
  | Some op, Some v =>
      if truthy operation
      then set_operationDisplay (toString v ++ " " ++ op) s
      else set_operationDisplay "" s
  | _, _ => set_operationDisplay "" s
  end.

Definition handleNumberClick (number : string) (s : state) : state :=
  let currentDisplay := mainDisplay s in
  if shouldResetDisplay s then
    set_shouldResetDisplay false (updateDisplay number s)
  else if String.eqb currentDisplay "0" && negb (String.eqb number ".") then
    updateDisplay number s
  else
    updateDisplay (currentDisplay ++ number) s.

Definition handleDecimal (s : state) : state :=
  let currentDisplay := mainDisplay s in
  if shouldResetDisplay s then
    set_shouldResetDisplay false (updateDisplay "0." s)
  else if negb (includes currentDisplay ".") then
    updateDisplay (currentDisplay ++ ".") s
  else s.

(** The result, and the state after the alert the call may raise. *)
Definition performCalculation
    (firstValue secondValue : number) (operation : string) (s : state)
  : number * state :=
  if String.eqb operation "+" then (add firstValue secondValue, s)
  else if String.eqb operation "-" then (sub firstValue secondValue, s)
  else if String.eqb operation "*" then (mul firstValue secondValue, s)
  else if String.eqb operation "/" then
    if is_zero secondValue
    then (firstValue, alert "Cannot divide by zero!" s)
    else (div firstValue secondValue, s)
  else if String.eqb operation "%" then
    if is_zero secondValue
    then (firstValue, alert "Cannot perform modulo with zero!" s)
    else (rem firstValue secondValue, s)
  else (secondValue, s).

Definition handleOperation (operation : string) (s : state) : state :=
  let currentValue := parseFloat (mainDisplay s) in
  let s1 :=
    match previousValue s, currentOperation s with
    | Some prev, Some op =>
        if truthy (currentOperation s) && negb (shouldResetDisplay s) then
          let (result, s') := performCalculation prev currentValue op s in
          set_previousValue (Some result) (updateDisplay (toString result) s')
        else set_previousValue (Some currentValue) s
    | _, _ => set_previousValue (Some currentValue) s
    end in
  let s2 := set_currentOperation (Some operation) s1 in
  let s3 := updateOperationDisplay (Some operation) (previousValue s2) s2 in
  set_shouldResetDisplay true s3.

Definition handleModulo (s : state) : state :=
  let currentValue := parseFloat (mainDisplay s) in
  let s1 :=
    match previousValue s, currentOperation s with
    | Some prev, Some op =>
        if truthy (currentOperation s) && negb (shouldResetDisplay s) then
          let (result, s') := performCalculation prev currentValue op s in
          set_currentOperation (Some "%")
            (set_previousValue (Some result)
               (updateDisplay (toString result) s'))
        else set_currentOperation (Some "%")
               (set_previousValue (Some currentValue) s)
    | _, _ => set_currentOperation (Some "%")
                (set_previousValue (Some currentValue) s)
    end in
  let s2 := updateOperationDisplay (Some "%") (previousValue s1) s1 in
  set_shouldResetDisplay true s2.

Definition handleSquare (s : state) : state :=
  let currentValue := parseFloat (mainDisplay s) in
  let result := mul currentValue currentValue in
  set_shouldResetDisplay true (updateDisplay (toString result) s).

Definition handleEquals (s : state) : state :=
  let currentValue := parseFloat (mainDisplay s) in
  match previousValue s, currentOperation s with
  | Some prev, Some op =>
      if truthy (currentOperation s) then
        let (result, s') := performCalculation prev currentValue op s in
        let s1 := updateDisplay (toString result) s' in
        let s2 := set_currentOperation None (set_previousValue None s1) in
        set_shouldResetDisplay true (updateOperationDisplay None None s2)
      else s
  | _, _ => s
  end.

Definition handleClear (s : state) : state :=
  let s1 := set_shouldResetDisplay true
              (set_currentOperation None (set_previousValue None s)) in
  updateOperationDisplay None None (updateDisplay "0" s1).

Definition handleBackspace (s : state) : state :=
  let currentDisplay := mainDisplay s in
  if (1 <? String.length currentDisplay)%nat then
    updateDisplay (slice currentDisplay 0 (-1)) s
  else
    set_shouldResetDisplay true (updateDisplay "0" s).

(** *** The inputs wired up by [initializeCalculator] *)

Inductive digit : Type := D0 | D1 | D2 | D3 | D4 | D5 | D6 | D7 | D8 | D9.

(** [String(i)] for the button [btn<i>]; the key of the same name. *)
Definition digit_text (d : digit) : string :=
  match d with
  | D0 => "0" | D1 => "1" | D2 => "2" | D3 => "3" | D4 => "4"
  | D5 => "5" | D6 => "6" | D7 => "7" | D8 => "8" | D9 => "9"
  end.

Inductive operator : Type := Add | Subtract | Multiply | Divide.

Definition operator_text (o : operator) : string :=
  match o with
  | Add => "+" | Subtract => "-" | Multiply => "*" | Divide => "/"
  end.

Inductive event : Type :=
| Number (d : digit)
| Decimal
| Operation (o : operator)
| Modulo
| Square
| Equals
| Clear
| Backspace.

Definition step (s : state) (ev : event) : state :=
  match ev with
  | Number d => handleNumberClick (digit_text d) s
  | Decimal => handleDecimal s
  | Operation o => handleOperation (operator_text o) s
  | Modulo => handleModulo s
  | Square => handleSquare s
  | Equals => handleEquals s
  | Clear => handleClear s
  | Backspace => handleBackspace s
  end.

Definition run (s : state) (evs : list event) : state := fold_left step evs s.

(** Modelled from the spec: the page markup ([index.html]) that gives the
    two display elements their first text is not among the sources; the
    spec starts the display at "0" with an empty operation indicator. *)
Definition initial_state : state :=
  {| previousValue := None;
     currentOperation := None;
     shouldResetDisplay := true;
     mainDisplay := "0";
     operationDisplay := "";
     alerts := [] |}.

(** The [keydown] listener of [initializeCalculator]: the state it leaves,
    and whether it called [event.preventDefault()].  Strings compare as
    JavaScript compares them, character by character. *)
Definition handleKeydown (key : string) (s : state) : state * bool :=
  if String.leb "0" key && String.leb key "9" then
    (handleNumberClick key s, false)
  else if String.eqb key "." then (handleDecimal s, false)
  else if String.eqb key "+" then (handleOperation "+" s, false)
  else if String.eqb key "-" then (handleOperation "-" s, false)
  else if String.eqb key "*" then (handleOperation "*" s, false)
  else if String.eqb key "/" then (handleOperation "/" s, true)
  else if String.eqb key "Enter" || String.eqb key "=" then
    (handleEquals s, true)
  else if String.eqb key "Backspace" then (handleBackspace s, true)
  else if String.eqb key "Escape" then (handleClear s, false)
  else (s, false).

End Calculator.

Import Calculator.

(** ** Vocabulary of the statements *)

(** A run of decimal digits. *)
Definition digits (ds : list ascii) : Prop :=
  Forall (fun c => is_digit c = true) ds.

(** No digit follows. *)
Definition stops (cs : list ascii) : Prop :=
  match cs with
  | [] => True
  | c :: _ => is_digit c = false
  end.

(** The pending operand and the pending operator are both absent or
    both present. *)
Definition paired (s : state) : Prop :=
  (previousValue s = None /\ currentOperation s = None) \/
  (previousValue s <> None /\ currentOperation s <> None).

(** The message [performCalculation] shows for a zero divisor. *)
Definition zero_notice (op : string) : string :=
  if String.eqb op "/" then "Cannot divide by zero!"
  else "Cannot perform modulo with zero!".

(** [s'] has the pending operation and the indicator of [s]. *)
Definition same_pending (s s' : state) : Prop :=
  previousValue s' = previousValue s /\
  currentOperation s' = currentOperation s /\
  operationDisplay s' = operationDisplay s.

(** The state [0 - 5 =] leads to: a negative result on the display. *)
Definition minus_five_shown : state :=
  run initial_state [Operation Subtract; Number D5; Equals].

(** Decimal digits only. *)
Fixpoint all_digits (s : string) : bool :=
  match s with
  | "" => true
  | String c r => is_digit c && all_digits r
  end.

(** Digits, then possibly a decimal point and more digits. *)
Fixpoint digits_then_fraction (s : string) : bool :=
  match s with
  | "" => true
  | String c r =>
      if is_digit c then digits_then_fraction r
      else Ascii.eqb c "." && all_digits r
  end.

(** The grammar of the display: an integer part without a leading zero
    (unless it is the single digit 0), then at most one decimal point
    followed by any number of digits. *)
Definition well_formed_display (s : string) : bool :=
  match s with
  | "" => false
  | String c r =>
      if Ascii.eqb c "0" then
        match r with
        | "" => true
        | String c' r' => Ascii.eqb c' "." && all_digits r'
        end
      else is_digit c && digits_then_fraction r
  end.

(** The inputs that edit the number being typed, and clear. *)
Definition is_entry (ev : event) : bool :=
  match ev with
  | Number _ | Decimal | Backspace | Clear => true
  | _ => false
  end.

(** SameValueZero of ECMAScript, the equality of Numbers as values: NaN
    is itself, and the two zeros are one number. *)
Definition SameValueZero (x y : number) : Prop :=
  match x, y with
  | Zero _, Zero _ => True
  | _, _ => x = y
  end.

(** The pending operand, when there is one, is a binary64 value. *)
Definition binary64_state (s : state) : Prop :=
  forall a, previousValue s = Some a -> canonical a.

(** 309 nines typed in: more than the largest finite Number. *)
Definition nines_typed : state :=
  run initial_state (repeat (Number D9) 309).

(** The keys 5 + 3, before the next operator. *)
Definition five_plus_three_typed : state :=
  run initial_state [Number D5; Operation Add; Number D3].

(** ** Vocabulary of the further properties *)


(** [s] with [log] put before its alerts. *)
Definition prepend_alerts (log : list string) (s : state) : state :=
  {| previousValue := previousValue s;
     currentOperation := currentOperation s;
     shouldResetDisplay := shouldResetDisplay s;
     mainDisplay := mainDisplay s;
     operationDisplay := operationDisplay s;
     alerts := log ++ alerts s |}.

(** The value [performCalculation] returns; it does not depend on the
    state. *)
Definition calculate (a b : number) (op : string) : number :=
  fst (performCalculation a b op initial_state).

(** The Number for an integer. *)
Definition number_of_Z (z : Z) : number := round (inject_Z z).

Definition digit_number (d : digit) : Z :=
  match d with
  | D0 => 0 | D1 => 1 | D2 => 2 | D3 => 3 | D4 => 4
  | D5 => 5 | D6 => 6 | D7 => 7 | D8 => 8 | D9 => 9
  end.

(** The integer written by a sequence of digit keys. *)
Definition typed_value (ds : list digit) : Z :=
  fold_left (fun acc d => acc * 10 + digit_number d) ds 0.

(** The exact result of an operator on rationals. *)
Definition exact_result (o : operator) (a b : Q) : Q :=
  match o with
  | Add => a + b
  | Subtract => a - b
  | Multiply => a * b
  | Divide => a / b
  end.

(** The five operator symbols the buttons and keys can store. *)
Definition operator_symbols : list string := ["+"; "-"; "*"; "/"; "%"].

(** The indicator shows the pending operation, and nothing otherwise. *)
Definition indicator_consistent (s : state) : Prop :=
  (previousValue s = None /\ currentOperation s = None /\
   operationDisplay s = "") \/
  (exists v o,
     previousValue s = Some v /\ currentOperation s = Some o /\
     In o operator_symbols /\
     operationDisplay s = toString v ++ " " ++ o).

(** The pending operation, when the two fields make one. *)
Definition pending (s : state) : option (number * string) :=
  match previousValue s, currentOperation s with
  | Some a, Some o => if truthy (Some o) then Some (a, o) else None
  | _, _ => None
  end.

(** The text [updateOperationDisplay] writes for operand [v] and
    operator [op]. *)
Definition indicator_text (v : number) (op : string) : string :=
  if truthy (Some op) then toString v ++ " " ++ op else "".

(** The state an operator press leaves: it finishes the pending
    operation first when a right-hand operand has been typed, and takes
    the display as the new left-hand operand otherwise. *)
Definition operator_outcome (op : string) (s : state) : state :=
  match pending s with
  | Some (a, o) =>
      if shouldResetDisplay s then
        {| previousValue := Some (parseFloat (mainDisplay s));
           currentOperation := Some op;
           shouldResetDisplay := true;
           mainDisplay := mainDisplay s;
           operationDisplay := indicator_text (parseFloat (mainDisplay s)) op;
           alerts := alerts s |}
      else
        let r := calculate a (parseFloat (mainDisplay s)) o in
        {| previousValue := Some r;
           currentOperation := Some op;
           shouldResetDisplay := true;
           mainDisplay := toString r;
           operationDisplay := indicator_text r op;
           alerts := alerts (snd (performCalculation
                                    a (parseFloat (mainDisplay s)) o s)) |}
  | None =>
      {| previousValue := Some (parseFloat (mainDisplay s));
         currentOperation := Some op;
         shouldResetDisplay := true;
         mainDisplay := mainDisplay s;
         operationDisplay := indicator_text (parseFloat (mainDisplay s)) op;
         alerts := alerts s |}
  end.

(** The state equals leaves. *)
Definition equals_outcome (s : state) : state :=
  match pending s with
  | Some (a, o) =>
      {| previousValue := None;
         currentOperation := None;
         shouldResetDisplay := true;
         mainDisplay := toString (calculate a (parseFloat (mainDisplay s)) o);
         operationDisplay := "";
         alerts := alerts (snd (performCalculation
                                  a (parseFloat (mainDisplay s)) o s)) |}
  | None => s
  end.

(** The display holds the text [t] of the integer [v], typed digit by
    digit. *)
Definition entering (t : string) (v : Z) : Prop :=
  digits (list_ascii_of_string t) /\ t <> "" /\
  digits_value (list_ascii_of_string t) = v.

(** The keys of a calculation [n1 o n2 =]. *)
Definition calculation_keys (ds1 : list digit) (o : operator)
    (ds2 : list digit) : list event :=
  (map Number ds1 ++ Operation o :: map Number ds2 ++ [Equals])%list.

(** The keys of a chained calculation [n1 o1 n2 o2 n3 =]. *)
Definition chained_keys (ds1 : list digit) (o1 : operator)
    (ds2 : list digit) (o2 : operator) (ds3 : list digit) : list event :=
  (map Number ds1 ++ Operation o1 :: map Number ds2
     ++ Operation o2 :: map Number ds3 ++ [Equals])%list.

(** The display holds an integer part, a decimal point and [k] fraction
    digits; [v] is the integer the digits write together. *)
Definition entering_fraction (t : string) (v : Z) (k : nat) : Prop :=
  exists ip fp,
    list_ascii_of_string t = (ip ++ "."%char :: fp)%list /\
    digits ip /\ ip <> [] /\ digits fp /\
    digits_value (ip ++ fp) = v /\ List.length fp = k.

(** The keys of a decimal entry: integer digits, the point, fraction
    digits. *)
Definition decimal_keys (ip fp : list digit) : list event :=
  (map Number ip ++ Decimal :: map Number fp)%list.

(** * Facts about numbers and their text *)

Local Close Scope string_scope.

#[local] Arguments is_digit : simpl never.

Section Rounding.

Lemma pow2_pos k : (0 < pow2 k)%Q.
Proof. apply Qpower_0_lt. reflexivity. Qed.

Lemma pow2_add a b : (pow2 (a + b) == pow2 a * pow2 b)%Q.
Proof. apply Qpower_plus. discriminate. Qed.

Lemma pow2_succ a : (pow2 (a + 1) == 2 * pow2 a)%Q.
Proof. rewrite pow2_add. change (pow2 1) with (2 # 1)%Q. ring. Qed.

Lemma pow2_le a b : a <= b -> (pow2 a <= pow2 b)%Q.
Proof. intros H. apply Qpower_le_compat_l; [exact H | discriminate]. Qed.

Lemma pow2_lt_inv a b : (pow2 a < pow2 b)%Q -> a < b.
Proof. intros H. apply (Qpower_lt_compat_l_inv (2 # 1)); [exact H | reflexivity]. Qed.

Lemma pow2_Z k : 0 <= k -> (pow2 k == inject_Z (2 ^ k))%Q.
Proof. intros H. symmetry. apply (Zpower_Qpower 2 k H). Qed.

Lemma div_pow2 q e : (q / pow2 e == q * pow2 (- e))%Q.
Proof.
  unfold Qdiv, pow2. rewrite Qpower_opp. reflexivity.
Qed.

Lemma inject_Z_log2 n :
  0 < n -> (pow2 (Z.log2 n) <= inject_Z n < 2 * pow2 (Z.log2 n))%Q.
Proof.
  intros Hn. destruct (Z.log2_spec n Hn) as [H1 H2].
  pose proof (Z.log2_nonneg n) as H0.
  rewrite <- pow2_succ, !pow2_Z by lia.
  rewrite <- Zle_Qle, <- Zlt_Qlt. split; [exact H1 | exact H2].
Qed.

(** [floor_log2] brackets a positive rational between two powers of 2. *)
Lemma floor_log2_spec q :
  (0 < q)%Q -> (pow2 (floor_log2 q) <= q < pow2 (floor_log2 q + 1))%Q.
Proof.
  intros Hq. unfold floor_log2. cbv zeta.
  set (a := Z.log2 (Qnum q)). set (b := Z.log2 (Zpos (Qden q))).
  assert (Hn : 0 < Qnum q).
  { destruct q as [n d]. unfold Qlt in Hq. simpl in *. lia. }
  destruct (inject_Z_log2 (Qnum q) Hn) as [Ha1 Ha2].
  destruct (inject_Z_log2 (Zpos (Qden q)) eq_refl) as [Hb1 Hb2].
  fold a in Ha1, Ha2. fold b in Hb1, Hb2.
  assert (Hq' : (q * inject_Z (Zpos (Qden q)) == inject_Z (Qnum q))%Q).
  { destruct q as [n d]. simpl. rewrite (Qmake_Qdiv n d). field. discriminate. }
  assert (Hl : (pow2 (a - b) * pow2 b == pow2 a)%Q).
  { rewrite <- pow2_add. replace (a - b + b) with a by lia. reflexivity. }
  pose proof (pow2_pos (a - b)) as Hp. pose proof (pow2_pos b) as Hpb.
  destruct (Qle_bool (pow2 (a - b)) q) eqn:Hc.
  - apply Qle_bool_iff in Hc. split; [exact Hc|].
    rewrite pow2_succ. nra.
  - assert (Hlt : (q < pow2 (a - b))%Q).
    { apply Qnot_le_lt. intros H. apply Qle_bool_iff in H. congruence. }
    replace (a - b - 1 + 1) with (a - b) by lia. split; [|exact Hlt].
    assert (Hh : (pow2 (a - b) == 2 * pow2 (a - b - 1))%Q).
    { rewrite <- pow2_succ. replace (a - b - 1 + 1) with (a - b) by lia. reflexivity. }
    nra.
Qed.

Lemma floor_log2_unique q L :
  (pow2 L <= q < pow2 (L + 1))%Q -> floor_log2 q = L.
Proof.
  intros [H1 H2].
  assert (Hq : (0 < q)%Q) by (pose proof (pow2_pos L); lra).
  destruct (floor_log2_spec q Hq) as [H3 H4].
  assert (floor_log2 q < L + 1) by (apply pow2_lt_inv; lra).
  assert (L < floor_log2 q + 1) by (apply pow2_lt_inv; lra).
  lia.
Qed.

Lemma nearest_even_Z t M : (t == inject_Z M)%Q -> nearest_even t = M.
Proof.
  intros H. unfold nearest_even.
  assert (Hf : Qfloor t = M) by (rewrite H; apply Qfloor_Z).
  rewrite Hf. cbv zeta.
  assert (Hlt : Qcompare (t - inject_Z M) (1 # 2) = Lt).
  { apply Qlt_alt. setoid_replace (t - inject_Z M)%Q with 0%Q by (rewrite H; ring).
    reflexivity. }
  rewrite Hlt. reflexivity.
Qed.

Lemma nearest_even_bounds t :
  Qfloor t <= nearest_even t <= Qfloor t + 1.
Proof.
  unfold nearest_even. cbv zeta.
  destruct (Qcompare _ _); try destruct (Z.even _); lia.
Qed.

(** A dyadic [R * 2^e0] that fits the format is rounded to itself. *)
Lemma round_pos_exact neg q R e0 :
  0 < R < 2 ^ 53 -> -1074 <= e0 <= 971 ->
  (q == inject_Z R * pow2 e0)%Q ->
  let e := Z.max (Z.log2 R + e0 - 52) (-1074) in
  round_pos neg q = Finite neg (Z.to_pos (R * 2 ^ (e0 - e))) e.
Proof.
  intros HR He Hq e.
  assert (Hlog : Z.log2 R <= 52).
  { assert (Z.log2 R < 53) by (apply Z.log2_lt_pow2; lia). lia. }
  pose proof (Z.log2_nonneg R) as Hlog0.
  assert (HL : floor_log2 q = Z.log2 R + e0).
  { apply floor_log2_unique. rewrite Hq.
    destruct (inject_Z_log2 R ltac:(lia)) as [H1 H2].
    pose proof (pow2_pos e0).
    rewrite !pow2_add. change (pow2 1) with (2 # 1)%Q. split; nra. }
  assert (Hee : 0 <= e0 - e) by lia.
  set (M := R * 2 ^ (e0 - e)).
  assert (Ht : (q / pow2 e == inject_Z M)%Q).
  { rewrite div_pow2, Hq. unfold M.
    rewrite inject_Z_mult, <- pow2_Z by lia.
    replace (e0 - e) with (e0 + - e) by lia. rewrite (pow2_add e0). ring. }
  assert (HM : 0 < M < 2 ^ 53).
  { unfold M. split; [apply Z.mul_pos_pos; [lia | apply Z.pow_pos_nonneg; lia]|].
    destruct (Z.log2_spec R ltac:(lia)) as [_ H2].
    apply Z.lt_le_trans with (2 ^ Z.succ (Z.log2 R) * 2 ^ (e0 - e)).
    - apply Z.mul_lt_mono_pos_r; [apply Z.pow_pos_nonneg; lia | exact H2].
    - rewrite <- Z.pow_add_r by lia. apply Z.pow_le_mono_r; lia. }
  unfold round_pos. rewrite HL. fold e. cbv zeta.
  rewrite (nearest_even_Z _ _ Ht).
  replace (M =? 2 ^ 53) with false by (symmetry; apply Z.eqb_neq; lia).
  destruct M as [|p|p] eqn:EM; try lia.
  destruct (Z.gtb_spec e 971); [lia | reflexivity].
Qed.

(** Rounding always lands on a binary64 value. *)
Lemma round_pos_canonical neg q : (0 < q)%Q -> canonical (round_pos neg q).
Proof.
  intros Hq. destruct (floor_log2_spec q Hq) as [H1 H2].
  unfold round_pos. set (L := floor_log2 q) in *.
  set (e := Z.max (L - 52) (-1074)). cbv zeta.
  set (t := (q / pow2 e)%Q).
  pose proof (nearest_even_bounds t) as Hm.
  set (m := nearest_even t) in *.
  pose proof (Qfloor_le t) as Hf1. pose proof (Qlt_floor t) as Hf2.
  assert (Ht : (t == q * pow2 (- e))%Q) by apply div_pow2.
  pose proof (pow2_pos (- e)) as Hpe.
  assert (Hup : Qfloor t < 2 ^ 53).
  { rewrite Zlt_Qlt, <- (pow2_Z 53) by lia.
    apply Qle_lt_trans with t; [exact Hf1|]. rewrite Ht.
    assert (pow2 (L + 1) * pow2 (- e) <= pow2 53)%Q.
    { rewrite <- pow2_add. apply pow2_le. lia. }
    nra. }
  assert (Hlow : e <> -1074 -> 2 ^ 52 <= Qfloor t).
  { intros Hne. rewrite <- (Qfloor_Z (2 ^ 52)). apply Qfloor_resp_le.
    rewrite <- (pow2_Z 52), Ht by lia.
    assert (pow2 52 == pow2 L * pow2 (- e))%Q.
    { rewrite <- pow2_add. replace (L + - e) with 52 by lia. reflexivity. }
    nra. }
  destruct (Z.eqb_spec m (2 ^ 53)) as [Em|Em].
  - change (2 ^ 52) with (Zpos (Z.to_pos (2 ^ 52))) at 1. cbv iota beta.
    destruct (Z.gtb_spec (e + 1) 971); simpl; [exact I|].
    repeat split; lia.
  - destruct m as [|p|p] eqn:Emm; simpl; try exact I.
    destruct (Z.gtb_spec e 971); simpl; [exact I|].
    repeat split; lia.
Qed.

End Rounding.

Section Digits.


Lemma digit_char_spec d :
  0 <= d < 10 ->
  is_digit (digit_char d) = true /\ digit_value (digit_char d) = d.
Proof.
  intros H.
  assert (E : d = 0 \/ d = 1 \/ d = 2 \/ d = 3 \/ d = 4 \/
              d = 5 \/ d = 6 \/ d = 7 \/ d = 8 \/ d = 9) by lia.
  repeat (destruct E as [-> | E]; [split; reflexivity|]).
  subst d. split; reflexivity.
Qed.

Lemma digit_value_range c : is_digit c = true -> 0 <= digit_value c < 10.
Proof.
  unfold is_digit, digit_value. cbv zeta. intros H.
  apply andb_prop in H as [H1 H2].
  apply Nat.leb_le in H1, H2. lia.
Qed.

Lemma fold_digits_acc ds acc :
  fold_left (fun a c => a * 10 + digit_value c) ds acc
  = acc * 10 ^ Z.of_nat (List.length ds) + digits_value ds.
Proof.
  unfold digits_value. revert acc.
  induction ds as [|c r IH]; intros acc.
  - simpl. lia.
  - cbn [fold_left List.length]. rewrite IH, (IH (0 * 10 + digit_value c)).
    rewrite Nat2Z.inj_succ, Z.pow_succ_r by lia. ring.
Qed.

Lemma digits_value_app a b :
  digits_value (a ++ b)
  = digits_value a * 10 ^ Z.of_nat (List.length b) + digits_value b.
Proof.
  unfold digits_value at 1. rewrite fold_left_app. apply fold_digits_acc.
Qed.

Lemma digits_value_nonneg ds : digits ds -> 0 <= digits_value ds.
Proof.
  induction ds as [|c r IH] using rev_ind; intros H.
  - reflexivity.
  - apply Forall_app in H as [Hr Hc]. inversion Hc; subst.
    rewrite digits_value_app. cbn [List.length Z.of_nat].
    pose proof (digit_value_range c ltac:(assumption)).
    specialize (IH Hr). change (digits_value [c]) with (0 * 10 + digit_value c).
    change (10 ^ Z.of_nat 1) with 10. lia.
Qed.

Lemma digits_value_zeros j : digits_value (repeat "0"%char j) = 0.
Proof.
  induction j as [|j IH]; [reflexivity|].
  change (repeat "0"%char (S j)) with (["0"%char] ++ repeat "0"%char j).
  rewrite digits_value_app, IH. reflexivity.
Qed.

Lemma digits_zeros j : digits (repeat "0"%char j).
Proof. apply Forall_forall. intros x Hx. apply repeat_spec in Hx. subst. reflexivity. Qed.

Lemma digits_fuel_spec fuel : forall n acc,
  0 <= n < 2 ^ Z.of_nat fuel ->
  (fuel <> 0)%nat ->
  exists ds, digits_fuel fuel n acc = ds ++ acc /\ digits ds /\ ds <> [] /\
             digits_value ds = n.
Proof.
  induction fuel as [|f IH]; intros n acc Hn Hf; [congruence|].
  cbn [digits_fuel].
  assert (Hd : 0 <= n mod 10 < 10) by (apply Z.mod_pos_bound; lia).
  destruct (digit_char_spec _ Hd) as [Hc Hv].
  assert (Hdiv : n = 10 * (n / 10) + n mod 10) by (apply Z.div_mod; lia).
  destruct (Z.eqb_spec (n / 10) 0) as [E|E].
  - exists [digit_char (n mod 10)]. repeat split.
    + constructor; [exact Hc | constructor].
    + discriminate.
    + change (digits_value [digit_char (n mod 10)])
        with (0 * 10 + digit_value (digit_char (n mod 10))). lia.
  - assert (Hq : 0 < n / 10) by (pose proof (Z.div_pos n 10); lia).
    destruct f as [|f'].
    + change (2 ^ Z.of_nat 1) with 2 in Hn. lia.
    + destruct (IH (n / 10) (digit_char (n mod 10) :: acc)) as (ds & E1 & E2 & E3 & E4).
      * split; [lia|]. rewrite Nat2Z.inj_succ, Z.pow_succ_r in Hn by lia. lia.
      * discriminate.
      * exists (ds ++ [digit_char (n mod 10)]). repeat split.
        -- rewrite E1, <- app_assoc. reflexivity.
        -- apply Forall_app. split; [exact E2 | constructor; [exact Hc | constructor]].
        -- intros H. apply app_eq_nil in H as [_ H]. discriminate.
        -- rewrite digits_value_app, E4.
           change (digits_value [digit_char (n mod 10)])
             with (0 * 10 + digit_value (digit_char (n mod 10))).
           change (10 ^ Z.of_nat (List.length [digit_char (n mod 10)])) with 10. lia.
Qed.

Lemma digits_of_spec n :
  0 <= n ->
  digits (digits_of n) /\ digits_of n <> [] /\ digits_value (digits_of n) = n.
Proof.
  intros Hn. unfold digits_of.
  destruct (digits_fuel_spec (S (Z.to_nat (Z.log2 n))) n []) as (ds & E1 & E2 & E3 & E4).
  - split; [exact Hn|].
    rewrite Nat2Z.inj_succ, Z2Nat.id by apply Z.log2_nonneg.
    destruct (Z.eq_dec n 0) as [->|Hne]; [reflexivity|].
    apply Z.log2_spec. lia.
  - discriminate.
  - rewrite app_nil_r in E1. rewrite E1. auto.
Qed.

(** *** Trailing zeros *)

Lemma drop_zeros_spec l :
  exists j, l = repeat "0"%char j ++ drop_zeros l.
Proof.
  induction l as [|c r [j IH]].
  - exists O. reflexivity.
  - cbn [drop_zeros]. destruct (Ascii.eqb_spec c "0") as [->|Hne].
    + exists (S j). cbn [repeat app]. f_equal. exact IH.
    + exists O. reflexivity.
Qed.

Lemma rev_zeros j : rev (repeat "0"%char j) = repeat "0"%char j.
Proof.
  induction j as [|j IH]; [reflexivity|].
  cbn [repeat rev]. rewrite IH. symmetry. apply repeat_cons.
Qed.

Lemma strip_zeros_spec ds :
  exists j, ds = strip_zeros ds ++ repeat "0"%char j.
Proof.
  unfold strip_zeros. destruct (drop_zeros_spec (rev ds)) as [j Hj].
  exists j. rewrite <- (rev_involutive ds) at 1.
  rewrite Hj at 1. rewrite rev_app_distr, rev_zeros. reflexivity.
Qed.

Lemma strip_zeros_value ds :
  digits ds ->
  digits (strip_zeros ds) /\
  (List.length (strip_zeros ds) <= List.length ds)%nat /\
  digits_value ds
  = digits_value (strip_zeros ds)
    * 10 ^ (Z.of_nat (List.length ds) - Z.of_nat (List.length (strip_zeros ds))).
Proof.
  intros H. destruct (strip_zeros_spec ds) as [j Hj].
  assert (Hlen : List.length ds = (List.length (strip_zeros ds) + j)%nat).
  { rewrite Hj at 1. rewrite length_app, repeat_length. reflexivity. }
  split; [|split].
  - rewrite Hj in H. apply Forall_app in H. apply H.
  - lia.
  - rewrite Hj at 1. rewrite digits_value_app, digits_value_zeros, repeat_length, Hlen.
    replace (Z.of_nat (List.length (strip_zeros ds) + j)
             - Z.of_nat (List.length (strip_zeros ds))) with (Z.of_nat j) by lia.
    ring.
Qed.

End Digits.

Section Reading.


Lemma span_digits_app ds rest :
  digits ds -> stops rest -> span_digits (ds ++ rest) = (ds, rest).
Proof.
  intros Hd Hs. induction Hd as [|c r Hc Hr IH].
  - destruct rest as [|c r]; [reflexivity|]. simpl in *. rewrite Hs. reflexivity.
  - cbn [app span_digits]. rewrite Hc, IH. reflexivity.
Qed.

Lemma digit_not_I c r :
  is_digit c = true ->
  starts_with (list_ascii_of_string "Infinity") (c :: r) = false.
Proof.
  intros H. cbn [list_ascii_of_string starts_with].
  destruct (Ascii.eqb_spec "I" c) as [<-|Hne]; [discriminate H | reflexivity].
Qed.

Lemma parse_exponent_nil : parse_exponent [] = 0.
Proof. reflexivity. Qed.

Lemma parse_exponent_text e :
  parse_exponent
    ("e"%char :: (if e <? 0 then "-"%char else "+"%char) :: digits_of (Z.abs e))
  = e.
Proof.
  destruct (digits_of_spec (Z.abs e) (Z.abs_nonneg e)) as (Hd & Hne & Hv).
  unfold parse_exponent.
  change (Ascii.eqb "e" "e" || Ascii.eqb "e" "E")%bool with true. cbv iota.
  assert (Hs : span_digits (digits_of (Z.abs e)) = (digits_of (Z.abs e), [])).
  { rewrite <- (app_nil_r (digits_of (Z.abs e))) at 1.
    apply span_digits_app; [exact Hd | exact I]. }
  destruct (Z.ltb_spec e 0); cbv iota beta; rewrite Hs; cbn [fst];
    destruct (digits_of (Z.abs e)); try congruence; rewrite Hv; lia.
Qed.

(** Digits, then something that is neither a digit nor a point. *)
Lemma parse_unsigned_integer neg ip et :
  digits ip -> ip <> [] -> stops et ->
  match et with "."%char :: _ => False | _ => True end ->
  parse_unsigned neg (ip ++ et)
  = decimal_value neg (digits_value ip) (parse_exponent et).
Proof.
  intros Hd Hne Hs Hdot. unfold parse_unsigned.
  destruct ip as [|c r]; [congruence|].
  inversion Hd; subst.
  change ((c :: r) ++ et) with (c :: (r ++ et)) at 1.
  rewrite digit_not_I by assumption.
  change (c :: (r ++ et)) with ((c :: r) ++ et).
  rewrite span_digits_app by assumption.
  assert (E : match et with
              | "."%char :: r0 => span_digits r0
              | _ => ([], et)
              end = ([], et)).
  { destruct et as [|x et']; [reflexivity|].
    destruct (Ascii.eqb_spec x "."); [subst; contradiction|].
    destruct x as [[] [] [] [] [] [] [] []]; try reflexivity. congruence. }
  rewrite E. rewrite app_nil_r. cbn [List.length Z.of_nat].
  rewrite Z.sub_0_r. reflexivity.
Qed.

Lemma parse_unsigned_fraction neg ip fp et :
  digits ip -> ip <> [] -> digits fp -> stops et ->
  parse_unsigned neg (ip ++ "."%char :: fp ++ et)
  = decimal_value neg (digits_value (ip ++ fp))
      (parse_exponent et - Z.of_nat (List.length fp)).
Proof.
  intros Hd Hne Hf Hs. unfold parse_unsigned.
  destruct ip as [|c r]; [congruence|].
  inversion Hd; subst.
  change ((c :: r) ++ "."%char :: fp ++ et)
    with (c :: (r ++ "."%char :: fp ++ et)) at 1.
  rewrite digit_not_I by assumption.
  change (c :: (r ++ "."%char :: fp ++ et))
    with ((c :: r) ++ "."%char :: fp ++ et).
  rewrite span_digits_app by (try assumption; reflexivity).
  rewrite span_digits_app by assumption.
  reflexivity.
Qed.

Lemma pow10_Q j : 0 <= j -> (inject_Z (10 ^ j) == (10 # 1) ^ j)%Q.
Proof. intros H. apply (Zpower_Qpower 10 j H). Qed.

Lemma decimal_value_scale neg V j :
  0 <= j -> decimal_value neg (V * 10 ^ j) 0 = decimal_value neg V j.
Proof.
  intros Hj. unfold decimal_value.
  assert (Hp : 0 < 10 ^ j) by (apply Z.pow_pos_nonneg; lia).
  destruct (Z.leb_spec V 0) as [HV|HV].
  - destruct (Z.leb_spec (V * 10 ^ j) 0); [reflexivity | nia].
  - destruct (Z.leb_spec (V * 10 ^ j) 0); [nia|].
    f_equal. apply Qred_complete.
    rewrite inject_Z_mult, pow10_Q by exact Hj.
    change ((10 # 1) ^ 0)%Q with 1%Q. ring.
Qed.

(** Reading a formatted text back gives the decimal it was made from. *)
Lemma parse_format neg ds n :
  digits ds -> ds <> [] ->
  parse_unsigned neg (format ds n)
  = decimal_value neg (digits_value ds) (n - Z.of_nat (List.length ds)).
Proof.
  intros Hd Hne. unfold format. cbv zeta.
  set (k := Z.of_nat (List.length ds)).
  assert (Hk : 0 < k) by (destruct ds; [congruence | unfold k; simpl; lia]).
  destruct ((-5 <=? n) && (n <=? 21))%bool.
  - destruct (Z.leb_spec k n) as [Hkn|Hkn]; [|destruct (Z.ltb_spec 0 n) as [Hn|Hn]].
    + rewrite <- (app_nil_r (ds ++ _)).
      rewrite parse_unsigned_integer; try exact I.
      * rewrite digits_value_app, digits_value_zeros, repeat_length, Z.add_0_r.
        rewrite Z2Nat.id by lia. apply decimal_value_scale. lia.
      * apply Forall_app. split; [exact Hd | apply digits_zeros].
      * intros H. apply app_eq_nil in H as [H _]. congruence.
    + pose proof (firstn_skipn (Z.to_nat n) ds) as Hfs.
      assert (Hd' : digits (firstn (Z.to_nat n) ds ++ skipn (Z.to_nat n) ds))
        by (rewrite Hfs; exact Hd).
      apply Forall_app in Hd' as [Hd1 Hd2].
      rewrite <- (app_nil_r (skipn _ _)).
      rewrite parse_unsigned_fraction; try assumption; try exact I.
      * rewrite Hfs, parse_exponent_nil, length_skipn. f_equal. unfold k. lia.
      * destruct ds as [|c r]; [congruence|].
        destruct (Z.to_nat n) eqn:En; [lia | discriminate].
    + change ("0"%char :: "."%char :: repeat "0"%char (Z.to_nat (- n)) ++ ds)
        with (["0"%char] ++ "."%char :: repeat "0"%char (Z.to_nat (- n)) ++ ds).
      rewrite <- (app_nil_r (repeat _ _ ++ ds)).
      rewrite parse_unsigned_fraction; try exact I.
      * rewrite !digits_value_app, digits_value_zeros, parse_exponent_nil.
        rewrite length_app, repeat_length. f_equal. unfold k. lia.
      * constructor; [reflexivity | constructor].
      * discriminate.
      * apply Forall_app. split; [apply digits_zeros | exact Hd].
  - destruct ds as [|d rest]; [congruence|].
    inversion Hd as [|? ? Hc Hr]; subst.
    destruct rest as [|d' rest'].
    + change (d :: "e"%char :: ?es) with ([d] ++ "e"%char :: es).
      rewrite parse_unsigned_integer.
      * rewrite parse_exponent_text. reflexivity.
      * exact Hd.
      * discriminate.
      * reflexivity.
      * exact I.
    + change (d :: "."%char :: (d' :: rest') ++ ?et)
        with ([d] ++ "."%char :: (d' :: rest') ++ et).
      rewrite parse_unsigned_fraction.
      * rewrite parse_exponent_text. f_equal. unfold k.
        cbn [List.length]. lia.
      * constructor; [exact Hc | constructor].
      * discriminate.
      * exact Hr.
      * reflexivity.
Qed.

Lemma format_head ds n :
  digits ds -> ds <> [] ->
  exists c r, format ds n = c :: r /\ is_digit c = true.
Proof.
  intros Hd Hne. unfold format. cbv zeta.
  destruct ds as [|d rest]; [congruence|].
  inversion Hd as [|? ? Hc Hr]; subst.
  destruct ((-5 <=? n) && (n <=? 21))%bool.
  - destruct (Z.leb_spec (Z.of_nat (List.length (d :: rest))) n);
      [|destruct (Z.ltb_spec 0 n)].
    + eexists _, _. split; [reflexivity | exact Hc].
    + destruct (Z.to_nat n) eqn:En; [lia|].
      eexists _, _. split; [reflexivity | exact Hc].
    + eexists _, _. split; [reflexivity | reflexivity].
  - destruct rest; eexists _, _; (split; [reflexivity | exact Hc]).
Qed.

Lemma parse_chars_digit (neg : bool) (c : ascii) (r : list ascii) :
  is_digit c = true ->
  parse_chars ((if neg then ["-"%char] else []) ++ c :: r)
  = parse_unsigned neg (c :: r).
Proof.
  intros Hc. destruct neg.
  - reflexivity.
  - unfold parse_chars. cbn [app trim_start].
    destruct c as [[] [] [] [] [] [] [] []]; try discriminate Hc; reflexivity.
Qed.


Lemma number_eqb_eq x y : number_eqb x y = true -> x = y.
Proof.
  destruct x as [|s|s|s m e], y as [|t|t|t n f]; simpl; try discriminate; intros H.
  - reflexivity.
  - apply Bool.eqb_prop in H. congruence.
  - apply Bool.eqb_prop in H. congruence.
  - apply andb_prop in H as [H He]. apply andb_prop in H as [Hs Hm].
    apply Bool.eqb_prop in Hs. apply Pos.eqb_eq in Hm. apply Z.eqb_eq in He.
    congruence.
Qed.

Lemma round_pos_sign neg q m e :
  round_pos false q = Finite false m e -> round_pos neg q = Finite neg m e.
Proof.
  unfold round_pos. cbv zeta.
  destruct (if _ =? _ then _ else _) as [m' e'].
  destruct m' as [|p|p]; try discriminate.
  destruct (e' >? 971); [discriminate|].
  intros H. injection H as -> ->. reflexivity.
Qed.

Lemma decimal_value_sign neg V E m e :
  decimal_value false V E = Finite false m e ->
  decimal_value neg V E = Finite neg m e.
Proof.
  unfold decimal_value. destruct (V <=? 0); [discriminate|].
  apply round_pos_sign.
Qed.

Lemma decimal_value_finite V E m e :
  decimal_value false V E = Finite false m e -> 0 < V.
Proof.
  unfold decimal_value. destruct (Z.leb_spec V 0); [discriminate | lia].
Qed.

Lemma digits_fuel_digits fuel : forall n acc,
  digits acc -> digits (digits_fuel fuel n acc).
Proof.
  induction fuel as [|f IH]; intros n acc Ha; [exact Ha|].
  cbn [digits_fuel].
  assert (Hc : digits (digit_char (n mod 10) :: acc)).
  { constructor; [|exact Ha].
    apply digit_char_spec, Z.mod_pos_bound. lia. }
  destruct (n / 10 =? 0); [exact Hc | apply IH, Hc].
Qed.

Lemma reading_digits n10 k s : digits (fst (reading n10 k s)).
Proof.
  unfold reading. cbn [fst].
  apply strip_zeros_value. apply digits_fuel_digits. constructor.
Qed.

Lemma pick_sound x (r1 r2 r : list ascii * Z) :
  digits (fst r1) -> digits (fst r2) ->
  (if reads_as x r1 then Some r1
   else if reads_as x r2 then Some r2 else None) = Some r ->
  reads_as x r = true /\ digits (fst r).
Proof.
  intros H1 H2. destruct (reads_as x r1) eqn:E1.
  - intros H. injection H as <-. tauto.
  - destruct (reads_as x r2) eqn:E2; [|discriminate].
    intros H. injection H as <-. tauto.
Qed.

Lemma try_digits_sound x k r :
  try_digits x k = Some r -> reads_as x r = true /\ digits (fst r).
Proof.
  unfold try_digits. cbv zeta.
  match goal with
  | |- context [if ?b then (reading _ _ _, _) else _] => destruct b
  end; apply pick_sound; apply reading_digits.
Qed.

Lemma shortest_sound fuel : forall x k r,
  shortest fuel x k = Some r -> reads_as x r = true /\ digits (fst r).
Proof.
  induction fuel as [|f IH]; intros x k r; [discriminate|].
  cbn [shortest]. destruct (try_digits x k) as [r'|] eqn:E.
  - intros H. injection H as <-. apply (try_digits_sound _ _ _ E).
  - apply IH.
Qed.

Lemma canonical_exponent s m e :
  canonical (Finite s m e) -> Z.max (Z.log2 (Zpos m) + e - 52) (-1074) = e.
Proof.
  intros (Hm & He & Hn).
  assert (Z.log2 (Zpos m) <= 52).
  { assert (Z.log2 (Zpos m) < 53) by (apply Z.log2_lt_pow2; lia). lia. }
  destruct Hn as [->|Hn]; [lia|].
  assert (Z.log2 (Zpos m) = 52) by (apply Z.log2_unique; [lia | split; assumption]).
  lia.
Qed.

Lemma round_pos_canonical_value neg q m e :
  canonical (Finite neg m e) ->
  (q == inject_Z (Zpos m) * pow2 e)%Q ->
  round_pos neg q = Finite neg m e.
Proof.
  intros Hc Hq. pose proof (canonical_exponent _ _ _ Hc) as He.
  destruct Hc as (Hm & Hr & _).
  rewrite (round_pos_exact neg q (Zpos m) e) by (try assumption; lia).
  rewrite He, Z.sub_diag, Z.mul_1_r. reflexivity.
Qed.

(** The text of a finite Number [m * 2^e] of the format. *)
Section TextOfFinite.

Variables (m : positive) (e : Z).
Hypothesis Hc : canonical (Finite false m e).

(** The full expansion denotes the Number itself. *)
Lemma exact_digits_sound :
  reads_as (Finite false m e) (exact_digits m e) = true /\
  digits (fst (exact_digits m e)).
Proof.
  unfold exact_digits.
  set (ip := if 0 <=? e then (Zpos m * 2 ^ e, 0) else (Zpos m * 5 ^ (- e), e)).
  assert (Hip : 0 < fst ip /\
                (inject_Z (fst ip) * (10 # 1) ^ snd ip
                 == inject_Z (Zpos m) * pow2 e)%Q).
  { unfold ip. destruct (Z.leb_spec 0 e) as [He|He]; cbn [fst snd].
    - split; [apply Z.mul_pos_pos; [lia | apply Z.pow_pos_nonneg; lia]|].
      rewrite inject_Z_mult, <- pow2_Z by lia.
      change ((10 # 1) ^ 0)%Q with 1%Q. ring.
    - split; [apply Z.mul_pos_pos; [lia | apply Z.pow_pos_nonneg; lia]|].
      assert (H10 : ((10 # 1) ^ e == / (inject_Z (2 ^ (- e)) * inject_Z (5 ^ (- e))))%Q).
      { replace e with (- - e) at 1 by lia. rewrite Qpower_opp.
        rewrite <- pow10_Q by lia.
        change 10 with (2 * 5). rewrite Z.pow_mul_l, inject_Z_mult. reflexivity. }
      assert (H2 : (pow2 e == / inject_Z (2 ^ (- e)))%Q).
      { unfold pow2. replace e with (- - e) at 1 by lia. rewrite Qpower_opp.
        fold (pow2 (- e)). rewrite pow2_Z by lia. reflexivity. }
      assert (Ha : (0 < inject_Z (2 ^ (- e)))%Q).
      { rewrite <- pow2_Z by lia. apply pow2_pos. }
      assert (Hb : (0 < inject_Z (5 ^ (- e)))%Q).
      { change 0%Q with (inject_Z 0). rewrite <- Zlt_Qlt.
        apply Z.pow_pos_nonneg; lia. }
      rewrite inject_Z_mult, H10, H2. field. split; lra. }
  destruct ip as [i p]. cbn [fst snd] in Hip. destruct Hip as [Hi Hq].
  cbv zeta beta iota.
  destruct (digits_of_spec i ltac:(lia)) as (Hd & _ & Hv).
  destruct (strip_zeros_value _ Hd) as (Hs & Hlen & Hsv).
  split; [|exact Hs].
  unfold reads_as.
  set (ds0 := digits_of i) in *. set (ds := strip_zeros ds0) in *.
  set (j := Z.of_nat (List.length ds0) - Z.of_nat (List.length ds)) in *.
  assert (Hj : 0 <= j) by (unfold j; lia).
  assert (HV : 0 < digits_value ds).
  { assert (H10 : 0 < 10 ^ j) by (apply Z.pow_pos_nonneg; lia).
    pose proof (digits_value_nonneg ds Hs). nia. }
  unfold decimal_value.
  destruct (Z.leb_spec (digits_value ds) 0); [lia|].
  rewrite (round_pos_canonical_value false _ m e Hc).
  - simpl. rewrite Pos.eqb_refl, Z.eqb_refl. reflexivity.
  - rewrite Qred_correct, <- Hq, <- Hv, Hsv.
    replace (Z.of_nat (List.length ds0) + p - Z.of_nat (List.length ds))
      with (j + p) by (unfold j; lia).
    rewrite inject_Z_mult, pow10_Q by exact Hj.
    rewrite Qpower_plus by discriminate. ring.
Qed.

Lemma shortest_digits_sound :
  reads_as (Finite false m e) (shortest_digits m e) = true /\
  digits (fst (shortest_digits m e)).
Proof.
  unfold shortest_digits.
  destruct (shortest 17 (Finite false m e) 1) as [r|] eqn:E.
  - apply (shortest_sound _ _ _ _ E).
  - apply exact_digits_sound.
Qed.

(** With or without the sign, the text reads back as the Number. *)
Lemma parse_unsigned_text (neg : bool) :
  parse_chars ((if neg then ["-"%char] else []) ++ unsigned_text m e)
  = Finite neg m e.
Proof.
  destruct shortest_digits_sound as [Hr Hd].
  unfold unsigned_text. destruct (shortest_digits m e) as [ds n].
  cbn [fst] in Hd. unfold reads_as in Hr. apply number_eqb_eq in Hr.
  assert (Hne : ds <> []).
  { apply decimal_value_finite in Hr. intros ->. discriminate Hr. }
  destruct (format_head ds n Hd Hne) as (c & r & Ef & Hdig).
  rewrite Ef, parse_chars_digit by exact Hdig.
  rewrite <- Ef, parse_format by assumption.
  apply decimal_value_sign, Hr.
Qed.

End TextOfFinite.

(** Reading the text of a Number back returns it; the sign of a zero,
    which the text does not show, is the one thing lost. *)
Theorem parseFloat_toString x :
  canonical x ->
  parseFloat (toString x) = match x with Zero _ => Zero false | _ => x end.
Proof.
  intros Hc. destruct x as [|[]|s|neg m e]; try reflexivity.
  unfold parseFloat, toString.
  rewrite list_ascii_of_string_of_list_ascii.
  apply parse_unsigned_text. exact Hc.
Qed.

End Reading.

Section Arithmetic.

Lemma Qnum_pos q : (0 < q)%Q -> exists p, Qnum q = Zpos p.
Proof.
  destruct q as [[|p|p] d]; unfold Qlt; simpl; intros H; try lia.
  exists p. reflexivity.
Qed.

Lemma Qnum_neg q : (q < 0)%Q -> exists p, Qnum q = Zneg p.
Proof.
  destruct q as [[|p|p] d]; unfold Qlt; simpl; intros H; try lia.
  exists p. reflexivity.
Qed.

(** [round] on a positive or a negative rational. *)
Lemma round_signed neg q :
  (0 < q)%Q -> round (signed neg q) = round_pos neg (Qred q).
Proof.
  intros Hq. unfold round. cbv zeta. destruct neg; cbn [signed].
  - rewrite Qred_opp.
    destruct (Qnum_neg (- Qred q)) as [p Hp].
    { rewrite Qred_correct. lra. }
    rewrite Hp. f_equal. destruct (Qred q) as [n d]. unfold Qopp. simpl.
    rewrite Z.opp_involutive. reflexivity.
  - destruct (Qnum_pos (Qred q)) as [p Hp].
    { rewrite Qred_correct. exact Hq. }
    rewrite Hp. reflexivity.
Qed.

Lemma round_canonical q : canonical (round q).
Proof.
  unfold round. cbv zeta.
  destruct (Qnum (Qred q)) as [|p|p] eqn:E; [exact I| |];
    apply round_pos_canonical; destruct (Qred q) as [n d];
    simpl in E; subst n; reflexivity.
Qed.

Lemma opp_canonical a : canonical a -> canonical (opp a).
Proof. destruct a; exact (fun H => H). Qed.

Lemma add_canonical a b : canonical a -> canonical b -> canonical (add a b).
Proof.
  intros Ha Hb.
  destruct a as [|s|s|s m e], b as [|t|t|t n f]; cbn [add];
    try exact I; try assumption; try apply round_canonical.
  destruct (Bool.eqb s t); exact I.
Qed.

Lemma sub_canonical a b : canonical a -> canonical b -> canonical (sub a b).
Proof. intros Ha Hb. apply add_canonical; [exact Ha | apply opp_canonical, Hb]. Qed.

Lemma mul_canonical a b : canonical (mul a b).
Proof.
  destruct a as [|s|s|s m e], b as [|t|t|t n f]; cbn [mul];
    try exact I; apply round_canonical.
Qed.

Lemma div_canonical a b : canonical (div a b).
Proof.
  destruct a as [|s|s|s m e], b as [|t|t|t n f]; cbn [div];
    try exact I; apply round_canonical.
Qed.

Lemma rem_canonical a b : canonical a -> canonical (rem a b).
Proof.
  intros Ha.
  destruct a as [|s|s|s m e], b as [|t|t|t n f]; cbn [rem];
    try exact I; try assumption.
  destruct (Qeq_bool _ _); [exact I | apply round_canonical].
Qed.

Lemma decimal_value_canonical neg V E : canonical (decimal_value neg V E).
Proof.
  unfold decimal_value. destruct (Z.leb_spec V 0); [exact I|].
  apply round_pos_canonical. rewrite Qred_correct.
  apply Qmult_lt_0_compat.
  - change 0%Q with (inject_Z 0). rewrite <- Zlt_Qlt. assumption.
  - apply Qpower_0_lt. reflexivity.
Qed.

Lemma parse_unsigned_canonical neg cs : canonical (parse_unsigned neg cs).
Proof.
  unfold parse_unsigned.
  destruct (starts_with _ cs); [exact I|].
  destruct (span_digits cs) as [ip r1].
  destruct (match r1 with "."%char :: r => span_digits r | _ => ([], r1) end)
    as [fp r2].
  destruct (ip ++ fp); [exact I | apply decimal_value_canonical].
Qed.

(** Whatever the text, [parseFloat] returns a binary64 value. *)
Lemma parseFloat_canonical s : canonical (parseFloat s).
Proof.
  unfold parseFloat, parse_chars.
  destruct (trim_start _) as [|c r]; [apply parse_unsigned_canonical|].
  destruct c as [[] [] [] [] [] [] [] []]; apply parse_unsigned_canonical.
Qed.

Lemma Qtrunc_comp x y : (x == y)%Q -> Qtrunc x = Qtrunc y.
Proof.
  intros H. unfold Qtrunc.
  assert (E : Qle_bool 0 x = Qle_bool 0 y).
  { apply eq_true_iff_eq. rewrite !Qle_bool_iff, H. reflexivity. }
  rewrite E. destruct (Qle_bool 0 y); rewrite H; reflexivity.
Qed.

(** Truncating a quotient of positive integers, with either sign. *)
Lemma Qtrunc_quotient neg A B :
  0 < A -> 0 < B ->
  Qtrunc (signed neg (inject_Z A / inject_Z B)) = if neg then - (A / B) else A / B.
Proof.
  intros HA HB.
  assert (Hpos : (0 < inject_Z A / inject_Z B)%Q).
  { apply Qlt_shift_div_l.
    - change 0%Q with (inject_Z 0). rewrite <- Zlt_Qlt. exact HB.
    - rewrite Qmult_0_l. change 0%Q with (inject_Z 0). rewrite <- Zlt_Qlt. exact HA. }
  unfold Qtrunc. destruct neg; cbn [signed].
  - assert (E : Qle_bool 0 (- (inject_Z A / inject_Z B)) = false).
    { apply not_true_is_false. rewrite Qle_bool_iff. lra. }
    rewrite E. unfold Qceiling. rewrite Qopp_involutive.
    rewrite <- Zdiv_Qdiv. reflexivity.
  - assert (E : Qle_bool 0 (inject_Z A / inject_Z B) = true).
    { apply Qle_bool_iff. lra. }
    rewrite E. symmetry. apply Zdiv_Qdiv.
Qed.

(** A number as an integer multiple of a power of two no larger than its
    own. *)
Lemma value_aligned s m e e0 :
  e0 <= e ->
  (value (Finite s m e) == signed s (inject_Z (Zpos m * 2 ^ (e - e0)) * pow2 e0))%Q.
Proof.
  intros H. cbn [value].
  assert (E : (inject_Z (Zpos m * 2 ^ (e - e0)) * pow2 e0
               == inject_Z (Zpos m) * pow2 e)%Q).
  { rewrite inject_Z_mult, <- pow2_Z by lia.
    rewrite <- Qmult_assoc, <- pow2_add. replace (e - e0 + e0) with e by lia.
    reflexivity. }
  destruct s; cbn [signed]; rewrite E; reflexivity.
Qed.

Lemma round_dyadic neg q R e0 :
  0 < R < 2 ^ 53 -> -1074 <= e0 <= 971 ->
  (q == signed neg (inject_Z R * pow2 e0))%Q ->
  exists m e, round q = Finite neg m e /\ (value (Finite neg m e) == q)%Q.
Proof.
  intros HR He Hq.
  assert (Hpos : (0 < inject_Z R * pow2 e0)%Q).
  { apply Qmult_lt_0_compat; [|apply pow2_pos].
    change 0%Q with (inject_Z 0). rewrite <- Zlt_Qlt. lia. }
  unfold round at 1. rewrite (Qred_complete _ _ Hq). fold (round (signed neg (inject_Z R * pow2 e0))).
  rewrite round_signed by exact Hpos.
  rewrite (round_pos_exact neg _ R e0 HR He) by apply Qred_correct.
  set (e := Z.max (Z.log2 R + e0 - 52) (-1074)).
  assert (Hlog : Z.log2 R <= 52).
  { assert (Z.log2 R < 53) by (apply Z.log2_lt_pow2; lia). lia. }
  assert (Hee : 0 <= e0 - e) by (unfold e; lia).
  assert (HM : 0 < R * 2 ^ (e0 - e))
    by (apply Z.mul_pos_pos; [lia | apply Z.pow_pos_nonneg; lia]).
  eexists _, _. split; [reflexivity|].
  rewrite Hq. cbn [value]. rewrite Z2Pos.id by exact HM.
  assert (E : (inject_Z (R * 2 ^ (e0 - e)) * pow2 e == inject_Z R * pow2 e0)%Q).
  { rewrite inject_Z_mult, <- pow2_Z by lia.
    rewrite <- Qmult_assoc, <- pow2_add. replace (e0 - e + e) with e0 by lia.
    reflexivity. }
  destruct neg; cbn [signed]; rewrite E; reflexivity.
Qed.

Lemma signed_zero_iff neg q : (signed neg q == 0 <-> q == 0)%Q.
Proof. destruct neg; cbn [signed]; split; intros H; lra. Qed.

(** The remainder of finite numbers is exact. *)
Lemma rem_finite_exact sa ma ea sb mb eb :
  canonical (Finite sa ma ea) -> canonical (Finite sb mb eb) ->
  let a := Finite sa ma ea in
  let b := Finite sb mb eb in
  let r := rem a b in
  is_finite r = true /\
  sign_bit r = sa /\
  (value a == inject_Z (Qtrunc (value a / value b)) * value b + value r)%Q.
Proof.
  intros Ha Hb a b r.
  set (e0 := Z.min ea eb).
  set (A := Zpos ma * 2 ^ (ea - e0)). set (B := Zpos mb * 2 ^ (eb - e0)).
  assert (HA : 0 < A) by (apply Z.mul_pos_pos; [lia | apply Z.pow_pos_nonneg; lia]).
  assert (HB : 0 < B) by (apply Z.mul_pos_pos; [lia | apply Z.pow_pos_nonneg; lia]).
  pose proof (value_aligned sa ma ea e0 ltac:(lia)) as Eva. fold A in Eva.
  pose proof (value_aligned sb mb eb e0 ltac:(lia)) as Evb. fold B in Evb.
  fold a in Eva. fold b in Evb.
  pose proof (pow2_pos e0) as Hp0.
  assert (HBq : (0 < inject_Z B)%Q)
    by (change 0%Q with (inject_Z 0); rewrite <- Zlt_Qlt; exact HB).
  assert (Equo : (value a / value b
                  == signed (xorb sa sb) (inject_Z A / inject_Z B))%Q).
  { rewrite Eva, Evb. destruct sa, sb; cbn [signed xorb]; field; lra. }
  assert (Eq : Qtrunc (value a / value b)
               = if xorb sa sb then - (A / B) else A / B).
  { rewrite (Qtrunc_comp _ _ Equo). apply Qtrunc_quotient; assumption. }
  set (R := A mod B).
  assert (HR : 0 <= R < B) by (apply Z.mod_pos_bound; exact HB).
  assert (HdivA : A = B * (A / B) + R) by (apply Z.div_mod; lia).
  assert (Er : (value a - value b * inject_Z (Qtrunc (value a / value b))
                == signed sa (inject_Z R * pow2 e0))%Q).
  { rewrite Eq, Eva, Evb.
    assert (EA : (inject_Z A == inject_Z B * inject_Z (A / B) + inject_Z R)%Q).
    { rewrite <- inject_Z_mult, <- inject_Z_plus, <- HdivA. reflexivity. }
    destruct sa, sb; cbn [signed xorb]; rewrite ?inject_Z_opp, EA; ring. }
  unfold r, rem, a, b. fold a. fold b. cbv zeta.
  destruct (Z.eq_dec R 0) as [E0|E0].
  - assert (Ez : Qeq_bool (value a - value b * inject_Z (Qtrunc (value a / value b))) 0
                 = true).
    { apply Qeq_bool_iff. rewrite Er, E0. destruct sa; cbn [signed]; ring. }
    rewrite Ez. cbn [is_finite sign_bit value].
    split; [reflexivity|]. split; [reflexivity|].
    rewrite Qplus_0_r.
    apply Qeq_bool_iff in Ez. lra.
  - assert (Ez : Qeq_bool (value a - value b * inject_Z (Qtrunc (value a / value b))) 0
                 = false).
    { apply not_true_is_false. rewrite Qeq_bool_iff, Er, signed_zero_iff.
      intros H. apply Qmult_integral in H as [H|H]; [|lra].
      apply E0. unfold Qeq in H. simpl in H. lia. }
    rewrite Ez.
    destruct Ha as (Hma & Hea & _), Hb as (Hmb & Heb & _).
    assert (HR53 : 0 < R < 2 ^ 53).
    { split; [lia|].
      assert (R <= A) by (pose proof (Z.mod_le A B); lia).
      destruct (Z.le_ge_cases ea eb).
      - assert (A = Zpos ma)
          by (unfold A, e0; rewrite Z.min_l, Z.sub_diag by lia; lia).
        lia.
      - assert (B = Zpos mb)
          by (unfold B, e0; rewrite Z.min_r, Z.sub_diag by lia; lia).
        lia. }
    destruct (round_dyadic sa _ R e0 HR53 ltac:(lia) Er) as (m & e & Em & Ev).
    rewrite Em. cbn [is_finite sign_bit].
    split; [reflexivity|]. split; [reflexivity|].
    rewrite Ev. ring.
Qed.

End Arithmetic.

Local Open Scope string_scope.

(** * Properties of the engine *)

(** Split on every conditional in the goal. *)
Ltac case_ifs :=
  repeat match goal with
         | |- context [if ?b then _ else _] => destruct b
         end.

(** Bring what [frame] says of the indicator update in the goal into the
    context. *)
Ltac indicator_frame frame Hp Ho Hd :=
  match goal with
  | |- context [updateOperationDisplay ?a ?b ?c] =>
      destruct (frame a b c) as (Hp & Ho & _ & Hd & _)
  end.

(** ** Both pending fields, or neither *)

Lemma updateOperationDisplay_frame op v s :
  previousValue (updateOperationDisplay op v s) = previousValue s /\
  currentOperation (updateOperationDisplay op v s) = currentOperation s /\
  shouldResetDisplay (updateOperationDisplay op v s) = shouldResetDisplay s /\
  mainDisplay (updateOperationDisplay op v s) = mainDisplay s /\
  alerts (updateOperationDisplay op v s) = alerts s.
Proof.
  unfold updateOperationDisplay.
  destruct op as [o|], v as [x|]; try destruct (truthy (Some o)); simpl; auto.
Qed.

Lemma handleOperation_paired op s : paired (handleOperation op s).
Proof.
  right. unfold handleOperation. cbv zeta.
  indicator_frame updateOperationDisplay_frame Hp Ho Hd.
  cbn [previousValue currentOperation set_shouldResetDisplay].
  rewrite Hp, Ho. clear Hp Ho Hd.
  destruct (previousValue s) as [prev|], (currentOperation s) as [o|];
    try destruct (truthy (Some o) && negb (shouldResetDisplay s))%bool;
    try destruct (performCalculation prev (parseFloat (mainDisplay s)) o s);
    simpl; split; discriminate.
Qed.

Lemma handleModulo_paired s : paired (handleModulo s).
Proof.
  right. unfold handleModulo. cbv zeta.
  indicator_frame updateOperationDisplay_frame Hp Ho Hd.
  cbn [previousValue currentOperation set_shouldResetDisplay].
  rewrite Hp, Ho. clear Hp Ho Hd.
  destruct (previousValue s) as [prev|], (currentOperation s) as [o|];
    try destruct (truthy (Some o) && negb (shouldResetDisplay s))%bool;
    try destruct (performCalculation prev (parseFloat (mainDisplay s)) o s);
    simpl; split; discriminate.
Qed.

Lemma handleEquals_paired s : paired s -> paired (handleEquals s).
Proof.
  intros H. unfold handleEquals.
  destruct (previousValue s) as [prev|] eqn:Hp,
           (currentOperation s) as [o|] eqn:Ho; auto.
  destruct (truthy (Some o)); auto.
  destruct (performCalculation prev (parseFloat (mainDisplay s)) o s).
  left. simpl. auto.
Qed.

Lemma step_paired s ev : paired s -> paired (step s ev).
Proof.
  intros H. destruct ev; simpl.
  - unfold handleNumberClick.
    destruct (shouldResetDisplay s); [exact H|].
    destruct (_ && _)%bool; exact H.
  - unfold handleDecimal.
    destruct (shouldResetDisplay s); [exact H|].
    destruct (negb _); exact H.
  - apply handleOperation_paired.
  - apply handleModulo_paired.
  - exact H.
  - apply handleEquals_paired, H.
  - left. split; reflexivity.
  - unfold handleBackspace. destruct (_ <? _)%nat; exact H.
Qed.

Lemma run_paired evs : forall s, paired s -> paired (run s evs).
Proof.
  induction evs as [|ev evs IH]; intros s H; simpl; [exact H|].
  apply IH, step_paired, H.
Qed.

(** C4: after any sequence of inputs from the initial state, the pending
    operand and the pending operator are both absent or both present. *)
Theorem pending_fields_paired (evs : list event) :
  let s := run initial_state evs in
  (previousValue s = None /\ currentOperation s = None) \/
  (previousValue s <> None /\ currentOperation s <> None).
Proof.
  apply (run_paired evs initial_state). left. split; reflexivity.
Qed.

(** ** Worked sequences *)

(** C1: from the initial state, and from any state once cleared, the keys
    5 + 3 = leave "8" on the display, an empty operation indicator, no
    pending operand or operator, and the reset flag set. *)
Theorem five_plus_three_equals :
  let keys := [Number D5; Operation Add; Number D3; Equals] in
  let final (log : list string) :=
    {| previousValue := None;
       currentOperation := None;
       shouldResetDisplay := true;
       mainDisplay := "8";
       operationDisplay := "";
       alerts := log |} in
  run initial_state keys = final [] /\
  forall s, run (handleClear s) keys = final (alerts s).
Proof.
  split; [vm_compute; reflexivity|].
  intros [p o r d i a]. vm_compute. reflexivity.
Qed.

(** ** Modulo is the operator [%] *)

(** C6: [handleModulo] is [handleOperation] at the operator [%], on every
    state, the case that first evaluates a pending operation included. *)
Theorem handleModulo_is_handleOperation (s : state) :
  handleModulo s = handleOperation "%" s.
Proof.
  unfold handleModulo, handleOperation.
  destruct (previousValue s) as [prev|], (currentOperation s) as [o|];
    try destruct (truthy (Some o) && negb (shouldResetDisplay s))%bool;
    try destruct (performCalculation prev (parseFloat (mainDisplay s)) o s);
    reflexivity.
Qed.

(** ** Division and modulo by zero *)

(** C2: with operand [a] and operator [/] or [%] pending and a display
    that reads as zero, [handleEquals] shows one notice, puts [a] itself
    on the display, and clears the pending fields and the indicator and
    sets the reset flag as any other equals does. *)
Theorem equals_absorbs_zero_divisor (s : state) (a : number) (op : string) :
  previousValue s = Some a ->
  currentOperation s = Some op ->
  op = "/" \/ op = "%" ->
  is_zero (parseFloat (mainDisplay s)) = true ->
  handleEquals s =
    {| previousValue := None;
       currentOperation := None;
       shouldResetDisplay := true;
       mainDisplay := toString a;
       operationDisplay := "";
       alerts := alerts s ++ [zero_notice op] |}.
Proof.
  intros Hp Ho Hop Hz. unfold handleEquals. rewrite Hp, Ho.
  destruct Hop as [-> | ->]; simpl truthy; cbv iota;
    unfold performCalculation; simpl String.eqb; cbv iota; rewrite Hz;
    reflexivity.
Qed.

Lemma equals_absorbs_zero_divisor_witness :
  let s := run initial_state [Number D5; Operation Divide; Number D0] in
  handleEquals s =
    {| previousValue := None;
       currentOperation := None;
       shouldResetDisplay := true;
       mainDisplay := "5";
       operationDisplay := "";
       alerts := ["Cannot divide by zero!"] |}.
Proof.
  exact (equals_absorbs_zero_divisor
           (run initial_state [Number D5; Operation Divide; Number D0])
           (parseFloat "5") "/"
           ltac:(vm_compute; reflexivity) ltac:(vm_compute; reflexivity)
           (or_introl eq_refl) ltac:(vm_compute; reflexivity)).
Defined.

(** ** Square *)

(** C8: [handleSquare] writes the product of the display value with
    itself and sets the reset flag; the pending operand and operator (and
    the indicator) stay as they were.  From the initial or a cleared
    state, 5 then square shows "25". *)
Theorem square_keeps_pending_operation :
  (forall s,
     let v := parseFloat (mainDisplay s) in
     handleSquare s =
       {| previousValue := previousValue s;
          currentOperation := currentOperation s;
          shouldResetDisplay := true;
          mainDisplay := toString (mul v v);
          operationDisplay := operationDisplay s;
          alerts := alerts s |}) /\
  mainDisplay (run initial_state [Number D5; Square]) = "25" /\
  (forall s, mainDisplay (run (handleClear s) [Number D5; Square]) = "25").
Proof.
  split; [reflexivity|].
  split; [vm_compute; reflexivity|].
  intros [p o r d i a]. vm_compute. reflexivity.
Qed.

(** ** Editing the entry leaves the pending operation alone *)

(** C10: a digit (whatever text [handleNumberClick] is given), the
    decimal point and backspace change neither the pending operand, nor
    the pending operator, nor the operation indicator. *)
Theorem entry_keys_keep_pending (s : state) :
  (forall number, same_pending s (handleNumberClick number s)) /\
  same_pending s (handleDecimal s) /\
  same_pending s (handleBackspace s).
Proof.
  unfold same_pending, handleNumberClick, handleDecimal, handleBackspace.
  repeat split; case_ifs; reflexivity.
Qed.

(** ** Backspace *)

Lemma substring_drop_last (s : string) :
  s <> "" ->
  exists c, s = substring 0 (String.length s - 1) s ++ String c "".
Proof.
  induction s as [|a r IH]; intros Hne; [congruence|].
  destruct r as [|b r'].
  - exists a. reflexivity.
  - destruct IH as [c Hc]; [discriminate|].
    exists c. simpl String.length in *.
    rewrite Nat.sub_succ, Nat.sub_0_r in *.
    change (substring 0 (S (String.length r')) (String a (String b r')))
      with (String a (substring 0 (String.length r') (String b r'))).
    simpl. f_equal. exact Hc.
Qed.

Lemma slice_drop_last (s : string) :
  s <> "" -> exists c, s = slice s 0 (-1) ++ String c "".
Proof.
  intros Hne. destruct (substring_drop_last s Hne) as [c Hc].
  exists c. unfold slice.
  assert (Hlen : (1 <= String.length s)%nat)
    by (destruct s; [congruence | simpl; lia]).
  replace (if (0 <? 0)%Z then _ else _) with 0%Z
    by (change (0 <? 0)%Z with false; cbv iota; lia).
  replace (if (-1 <? 0)%Z then _ else _)
    with (Z.of_nat (String.length s) - 1)%Z
    by (change (-1 <? 0)%Z with true; cbv iota; lia).
  replace (Z.to_nat (Z.max (Z.of_nat (String.length s) - 1 - 0) 0))
    with (String.length s - 1)%nat by lia.
  exact Hc.
Qed.

(** Backspace on "-5" leaves the lone sign "-", not "0". *)
Lemma backspace_leaves_lone_minus :
  mainDisplay minus_five_shown = "-5" /\
  mainDisplay (handleBackspace minus_five_shown) = "-" /\
  mainDisplay (handleBackspace minus_five_shown) <> "0".
Proof.
  split; [vm_compute; reflexivity|].
  split; [vm_compute; reflexivity|].
  vm_compute. discriminate.
Qed.

(** C7, as the code has it: backspace changes the display text and the
    reset flag only.  A text longer than one character loses its last
    character and nothing else happens (the flag stays); a text of at most
    one character becomes "0" and the flag is set. *)
Theorem backspace_drops_last_character (s : state) :
  let s' := handleBackspace s in
  (previousValue s' = previousValue s /\
   currentOperation s' = currentOperation s /\
   operationDisplay s' = operationDisplay s /\
   alerts s' = alerts s) /\
  ((1 < String.length (mainDisplay s))%nat ->
   (exists c, mainDisplay s = mainDisplay s' ++ String c "") /\
   shouldResetDisplay s' = shouldResetDisplay s) /\
  ((String.length (mainDisplay s) <= 1)%nat ->
   mainDisplay s' = "0" /\ shouldResetDisplay s' = true).
Proof.
  unfold handleBackspace. cbv zeta.
  destruct (1 <? String.length (mainDisplay s))%nat eqn:Hlen.
  - apply Nat.ltb_lt in Hlen. repeat split; try reflexivity; try lia.
    simpl. apply slice_drop_last. intros E. rewrite E in Hlen. simpl in Hlen. lia.
  - apply Nat.ltb_ge in Hlen. repeat split; try reflexivity; lia.
Qed.

Lemma backspace_drops_last_character_witness :
  ((exists c, "-5" = mainDisplay (handleBackspace minus_five_shown) ++ String c "") /\
   shouldResetDisplay (handleBackspace minus_five_shown) = true) /\
  (mainDisplay (handleBackspace initial_state) = "0" /\
   shouldResetDisplay (handleBackspace initial_state) = true).
Proof.
  split.
  - exact (proj1 (proj2 (backspace_drops_last_character minus_five_shown))
             ltac:(vm_compute; lia)).
  - exact (proj2 (proj2 (backspace_drops_last_character initial_state))
             ltac:(vm_compute; lia)).
Defined.

(** ** The grammar of typed numbers *)

Lemma digit_text_is_digit d :
  exists c, digit_text d = String c "" /\ is_digit c = true.
Proof. destruct d; eexists; split; reflexivity. Qed.

Lemma all_digits_app s t :
  all_digits (s ++ t) = all_digits s && all_digits t.
Proof.
  induction s as [|c r IH]; simpl; [reflexivity|].
  rewrite IH. apply andb_assoc.
Qed.

Lemma all_digits_fraction s : all_digits s = true -> digits_then_fraction s = true.
Proof.
  induction s as [|c r IH]; simpl; [reflexivity|].
  intros H. apply andb_prop in H as [-> H]. auto.
Qed.

Lemma fraction_app_digits s t :
  digits_then_fraction s = true -> all_digits t = true ->
  digits_then_fraction (s ++ t) = true.
Proof.
  induction s as [|c r IH]; simpl; intros Hs Ht.
  - apply all_digits_fraction, Ht.
  - destruct (is_digit c); [auto|].
    apply andb_prop in Hs as [-> Hs]. rewrite all_digits_app, Hs, Ht. reflexivity.
Qed.

Lemma includes_dot_cons c r :
  includes (String c r) "." = Ascii.eqb c "." || includes r ".".
Proof.
  change (includes (String c r) ".")
    with (prefix "." (String c r) || includes r ".").
  f_equal. cbn [prefix].
  destruct (ascii_dec "." c) as [<-|Hne].
  - destruct r; reflexivity.
  - destruct (Ascii.eqb_spec c "."); [congruence | reflexivity].
Qed.

Lemma fraction_without_dot s :
  digits_then_fraction s = true -> includes s "." = false ->
  all_digits s = true.
Proof.
  induction s as [|c r IH]; intros Hs Hd; [reflexivity|].
  rewrite includes_dot_cons in Hd. apply orb_false_elim in Hd as [Hc Hr].
  simpl in *. destruct (is_digit c); [auto|].
  rewrite Hc in Hs. discriminate.
Qed.

Lemma all_digits_app_dot s :
  all_digits s = true -> digits_then_fraction (s ++ ".") = true.
Proof.
  induction s as [|c r IH]; simpl; [reflexivity|].
  intros H. apply andb_prop in H as [-> H]. auto.
Qed.

Lemma fraction_prefix s t :
  digits_then_fraction (s ++ t) = true -> digits_then_fraction s = true.
Proof.
  induction s as [|c r IH]; simpl; [reflexivity|].
  destruct (is_digit c); [exact IH|].
  rewrite all_digits_app. intros H.
  apply andb_prop in H as [-> H]. apply andb_prop in H as [-> _]. reflexivity.
Qed.

Lemma well_formed_app_digit s c :
  well_formed_display s = true -> s <> "0" -> is_digit c = true ->
  well_formed_display (s ++ String c "") = true.
Proof.
  intros Hs Hne Hc.
  assert (Ht : all_digits (String c "") = true)
    by (cbn [all_digits]; rewrite Hc; reflexivity).
  destruct s as [|a r]; [discriminate|]. simpl in Hs |- *.
  destruct (Ascii.eqb_spec a "0") as [->|Ha].
  - destruct r as [|b r']; [congruence|]. simpl.
    apply andb_prop in Hs as [-> Hs]. rewrite all_digits_app, Hs, Ht. reflexivity.
  - apply andb_prop in Hs as [-> Hs]. apply fraction_app_digits; assumption.
Qed.

Lemma well_formed_app_dot s :
  well_formed_display s = true -> includes s "." = false ->
  well_formed_display (s ++ ".") = true.
Proof.
  intros Hs Hd. destruct s as [|a r]; [discriminate|].
  rewrite includes_dot_cons in Hd. apply orb_false_elim in Hd as [Ha Hr].
  simpl in *. destruct (Ascii.eqb a "0").
  - destruct r as [|b r']; [reflexivity|].
    rewrite includes_dot_cons in Hr. apply orb_false_elim in Hr as [Hb _].
    rewrite Hb in Hs. discriminate.
  - apply andb_prop in Hs as [-> Hs].
    apply all_digits_app_dot, fraction_without_dot; assumption.
Qed.

Lemma well_formed_prefix s t :
  s <> "" -> well_formed_display (s ++ t) = true -> well_formed_display s = true.
Proof.
  intros Hne H. destruct s as [|a r]; [congruence|]. simpl in *.
  destruct (Ascii.eqb a "0").
  - destruct r as [|b r']; [reflexivity|]. simpl in *.
    rewrite all_digits_app in H.
    apply andb_prop in H as [-> H]. apply andb_prop in H as [-> _]. reflexivity.
  - apply andb_prop in H as [-> H]. apply fraction_prefix in H. exact H.
Qed.

Lemma well_formed_slice s :
  (1 < String.length s)%nat -> well_formed_display s = true ->
  well_formed_display (slice s 0 (-1)) = true.
Proof.
  intros Hlen H.
  destruct (slice_drop_last s) as [c Hc].
  { intros ->. simpl in Hlen. lia. }
  apply (well_formed_prefix _ (String c "")).
  - intros E. rewrite E in Hc. rewrite Hc in Hlen. simpl in Hlen. lia.
  - rewrite <- Hc. exact H.
Qed.

Lemma handleNumberClick_well_formed d s :
  (shouldResetDisplay s = false -> well_formed_display (mainDisplay s) = true) ->
  well_formed_display (mainDisplay (handleNumberClick (digit_text d) s)) = true /\
  shouldResetDisplay (handleNumberClick (digit_text d) s) = false.
Proof.
  intros H. destruct (digit_text_is_digit d) as (c & Hd & Hc).
  unfold handleNumberClick. cbv zeta.
  destruct (shouldResetDisplay s) eqn:Hr.
  - simpl. rewrite Hd. split; [|reflexivity]. simpl.
    rewrite Hc. destruct (Ascii.eqb c "0"); reflexivity.
  - destruct (String.eqb_spec (mainDisplay s) "0") as [E|E].
    + replace (negb (digit_text d =? ".")) with true by (destruct d; reflexivity).
      simpl. rewrite Hd. split; [|exact Hr]. simpl.
      rewrite Hc. destruct (Ascii.eqb c "0"); reflexivity.
    + simpl. rewrite Hd. split; [|exact Hr].
      apply well_formed_app_digit; auto.
Qed.

Lemma handleDecimal_well_formed s :
  (shouldResetDisplay s = false -> well_formed_display (mainDisplay s) = true) ->
  well_formed_display (mainDisplay (handleDecimal s)) = true /\
  shouldResetDisplay (handleDecimal s) = false.
Proof.
  intros H. unfold handleDecimal. cbv zeta.
  destruct (shouldResetDisplay s) eqn:Hr.
  - split; reflexivity.
  - destruct (includes (mainDisplay s) ".") eqn:Hd; simpl.
    + auto.
    + split; [|exact Hr]. apply well_formed_app_dot; auto.
Qed.

(** While a number is being typed the display is well formed: every
    input preserves this. *)
Lemma step_typed_well_formed s ev :
  (shouldResetDisplay s = false -> well_formed_display (mainDisplay s) = true) ->
  shouldResetDisplay (step s ev) = false ->
  well_formed_display (mainDisplay (step s ev)) = true.
Proof.
  intros H. destruct ev; simpl.
  - intros _. apply handleNumberClick_well_formed, H.
  - intros _. apply handleDecimal_well_formed, H.
  - unfold handleOperation. simpl. discriminate.
  - unfold handleModulo. simpl. discriminate.
  - unfold handleSquare. simpl. discriminate.
  - unfold handleEquals.
    destruct (previousValue s), (currentOperation s) as [o|]; auto.
    destruct (truthy (Some o)); auto.
    destruct (performCalculation _ _ _ _). simpl. discriminate.
  - unfold handleClear. simpl. discriminate.
  - unfold handleBackspace. cbv zeta.
    destruct (1 <? String.length (mainDisplay s))%nat eqn:Hlen; simpl.
    + intros Hr. apply Nat.ltb_lt in Hlen. apply well_formed_slice; auto.
    + discriminate.
Qed.

Lemma step_entry_well_formed s ev :
  is_entry ev = true ->
  well_formed_display (mainDisplay s) = true ->
  well_formed_display (mainDisplay (step s ev)) = true.
Proof.
  intros He H. destruct ev; try discriminate; simpl.
  - apply handleNumberClick_well_formed. auto.
  - apply handleDecimal_well_formed. auto.
  - reflexivity.
  - unfold handleBackspace. cbv zeta.
    destruct (1 <? String.length (mainDisplay s))%nat eqn:Hlen; simpl.
    + apply Nat.ltb_lt in Hlen. apply well_formed_slice; auto.
    + reflexivity.
Qed.

Lemma run_snoc s evs ev : run s (evs ++ [ev]) = step (run s evs) ev.
Proof. unfold run. rewrite fold_left_app. reflexivity. Qed.

Lemma run_typed_well_formed evs :
  shouldResetDisplay (run initial_state evs) = false ->
  well_formed_display (mainDisplay (run initial_state evs)) = true.
Proof.
  induction evs as [|ev evs IH] using rev_ind.
  - discriminate.
  - rewrite run_snoc. apply step_typed_well_formed, IH.
Qed.

Lemma run_entry_well_formed evs :
  forallb is_entry evs = true ->
  well_formed_display (mainDisplay (run initial_state evs)) = true.
Proof.
  induction evs as [|ev evs IH] using rev_ind; intros H.
  - reflexivity.
  - rewrite forallb_app in H. apply andb_prop in H as [H1 H2].
    simpl in H2. rewrite andb_true_r in H2.
    rewrite run_snoc. apply step_entry_well_formed; auto.
Qed.

(** A computed result need not fit the grammar: [0 - 5 =] shows "-5". *)
Lemma negative_result_breaks_grammar :
  mainDisplay (run initial_state [Operation Subtract; Number D5; Equals]) = "-5" /\
  well_formed_display
    (mainDisplay (run initial_state [Operation Subtract; Number D5; Equals]))
  = false.
Proof. split; vm_compute; reflexivity. Qed.

(** C3, as the code has it: the display fits the grammar of typed numbers
    in every reachable state in which a number is being typed (reset flag
    clear), and in every state reached by digits, decimal points,
    backspaces and clears alone. *)
Theorem typed_display_well_formed (evs : list event) :
  (shouldResetDisplay (run initial_state evs) = false ->
   well_formed_display (mainDisplay (run initial_state evs)) = true) /\
  (forallb is_entry evs = true ->
   well_formed_display (mainDisplay (run initial_state evs)) = true).
Proof.
  split; [apply run_typed_well_formed | apply run_entry_well_formed].
Qed.

Lemma typed_display_well_formed_witness :
  well_formed_display
    (mainDisplay
       (run initial_state
          [Number D5; Operation Subtract; Number D1; Number D0; Decimal;
           Number D2; Number D5; Backspace])) = true /\
  well_formed_display
    (mainDisplay
       (run initial_state
          [Number D0; Decimal; Number D0; Number D7; Backspace; Backspace;
           Backspace; Backspace; Clear; Number D4; Number D2])) = true.
Proof.
  split.
  - exact (proj1 (typed_display_well_formed
                    [Number D5; Operation Subtract; Number D1; Number D0;
                     Decimal; Number D2; Number D5; Backspace]) eq_refl).
  - exact (proj2 (typed_display_well_formed
                    [Number D0; Decimal; Number D0; Number D7; Backspace;
                     Backspace; Backspace; Backspace; Clear; Number D4;
                     Number D2]) eq_refl).
Defined.

(** ** Two operators in a row *)

Lemma performCalculation_canonical a b op s :
  canonical a -> canonical b -> canonical (fst (performCalculation a b op s)).
Proof.
  intros Ha Hb. unfold performCalculation.
  case_ifs; cbn [fst];
    auto using add_canonical, sub_canonical, mul_canonical, div_canonical,
      rem_canonical.
Qed.

Lemma handleOperation_fields op s :
  currentOperation (handleOperation op s) = Some op /\
  shouldResetDisplay (handleOperation op s) = true.
Proof.
  unfold handleOperation. cbv zeta.
  indicator_frame updateOperationDisplay_frame Hp Ho Hd.
  cbn [currentOperation shouldResetDisplay set_shouldResetDisplay].
  rewrite Ho. split; reflexivity.
Qed.

(** Pressed while the reset flag is set, an operator takes the display
    as the pending operand and leaves the display alone. *)
Lemma handleOperation_armed op s :
  shouldResetDisplay s = true ->
  previousValue (handleOperation op s) = Some (parseFloat (mainDisplay s)) /\
  mainDisplay (handleOperation op s) = mainDisplay s.
Proof.
  intros Hr. unfold handleOperation. cbv zeta.
  indicator_frame updateOperationDisplay_frame Hp Ho Hd.
  cbn [previousValue mainDisplay set_shouldResetDisplay].
  rewrite Hp, Hd, Hr, andb_false_r.
  destruct (previousValue s), (currentOperation s); split; reflexivity.
Qed.

(** After an operator the pending operand is what the display reads as,
    or the display is its text. *)
Lemma handleOperation_operand op s :
  binary64_state s ->
  exists a,
    previousValue (handleOperation op s) = Some a /\ canonical a /\
    (parseFloat (mainDisplay (handleOperation op s)) = a \/
     mainDisplay (handleOperation op s) = toString a).
Proof.
  intros Hs. unfold handleOperation. cbv zeta.
  indicator_frame updateOperationDisplay_frame Hp Ho Hd.
  cbn [previousValue mainDisplay set_shouldResetDisplay].
  rewrite Hp, Hd. clear Hp Ho Hd.
  assert (Hplain :
    exists a,
      previousValue
        (set_currentOperation (Some op)
           (set_previousValue (Some (parseFloat (mainDisplay s))) s)) = Some a /\
      canonical a /\
      (parseFloat
         (mainDisplay
            (set_currentOperation (Some op)
               (set_previousValue (Some (parseFloat (mainDisplay s))) s))) = a \/
       mainDisplay
         (set_currentOperation (Some op)
            (set_previousValue (Some (parseFloat (mainDisplay s))) s))
       = toString a)).
  { exists (parseFloat (mainDisplay s)).
    split; [reflexivity|]. split; [apply parseFloat_canonical|].
    left. reflexivity. }
  destruct (previousValue s) as [prev|] eqn:Ep; [|exact Hplain].
  destruct (currentOperation s) as [o|] eqn:Eo; [|exact Hplain].
  destruct (truthy (Some o) && negb (shouldResetDisplay s))%bool; [|exact Hplain].
  pose proof (performCalculation_canonical prev (parseFloat (mainDisplay s)) o s
                (Hs prev Ep) (parseFloat_canonical _)) as Hc.
  destruct (performCalculation prev (parseFloat (mainDisplay s)) o s)
    as [result s'].
  exists result. split; [reflexivity|]. split; [exact Hc|].
  right. reflexivity.
Qed.

(** What the second of two operator presses records: the operand of the
    first press itself, or [+0] where the first press computed [-0]. *)
Lemma second_operator_operand (s : state) (op1 op2 : string) :
  binary64_state s ->
  exists a b,
    previousValue (handleOperation op1 s) = Some a /\
    previousValue (handleOperation op2 (handleOperation op1 s)) = Some b /\
    (b = a \/ (a = Zero true /\ b = Zero false)).
Proof.
  intros Hs.
  destruct (handleOperation_fields op1 s) as [_ Hr1].
  destruct (handleOperation_armed op2 _ Hr1) as [Hp2 _].
  destruct (handleOperation_operand op1 s Hs) as (a & Hp1 & Ha & Hshown).
  exists a, (parseFloat (mainDisplay (handleOperation op1 s))).
  split; [exact Hp1|]. split; [exact Hp2|].
  destruct Hshown as [E|E].
  - left. exact E.
  - rewrite E, (parseFloat_toString a Ha).
    destruct a as [| |[]|]; auto.
Qed.

(** C5: two operators in a row, from any state whose pending operand is
    a binary64 value.  The second press records its own operator, leaves
    the display as the first press left it, and keeps the pending operand
    of the first press: the same number (SameValueZero; the sign of a
    zero, which the display does not show, is not kept). *)
Theorem operator_twice (s : state) (op1 op2 : string) :
  binary64_state s ->
  let s1 := handleOperation op1 s in
  let s2 := handleOperation op2 s1 in
  currentOperation s2 = Some op2 /\
  mainDisplay s2 = mainDisplay s1 /\
  exists a b,
    previousValue s1 = Some a /\ previousValue s2 = Some b /\
    SameValueZero a b.
Proof.
  intros Hs s1 s2.
  destruct (handleOperation_fields op1 s) as [_ Hr1]. fold s1 in Hr1.
  destruct (handleOperation_fields op2 s1) as [Ho2 _]. fold s2 in Ho2.
  destruct (handleOperation_armed op2 s1 Hr1) as [_ Hd2]. fold s2 in Hd2.
  destruct (second_operator_operand s op1 op2 Hs) as (a & b & Hp1 & Hp2 & Hab).
  split; [exact Ho2|]. split; [exact Hd2|].
  exists a, b. split; [exact Hp1|]. split; [exact Hp2|].
  destruct Hab as [->|[-> ->]]; [destruct a; reflexivity | exact I].
Qed.

Lemma operator_twice_witness :
  let s1 := handleOperation "*" five_plus_three_typed in
  let s2 := handleOperation "-" s1 in
  currentOperation s2 = Some "-" /\
  mainDisplay s2 = mainDisplay s1 /\
  exists a b,
    previousValue s1 = Some a /\ previousValue s2 = Some b /\
    SameValueZero a b.
Proof.
  apply (operator_twice five_plus_three_typed "*" "-").
  intros a H. vm_compute in H. injection H as <-. simpl. lia.
Defined.

(** ** The remainder *)

(** [Infinity % 3] is [NaN], and the calculator can get there: 309 nines
    read as [Infinity]. *)
Lemma modulo_of_infinity :
  let a := parseFloat (mainDisplay nines_typed) in
  let b := parseFloat "3" in
  let r := fst (performCalculation a b "%" initial_state) in
  a = Infinity false /\ is_zero b = false /\
  r = NaN /\ is_finite r = false /\ is_zero r = false /\
  mainDisplay (run nines_typed [Modulo; Number D3; Equals]) = "NaN".
Proof. repeat split; vm_compute; reflexivity. Qed.

(** C9, as the code has it: for finite Numbers [a] and [b], [b] not
    zero, [performCalculation a b "%"] raises no alert and returns a
    finite [r] with [a = q * b + r] exactly, where [q] is the quotient
    [a / b] truncated towards zero; [r] is zero or has the sign of [a]. *)
Theorem modulo_truncating_remainder (a b : number) (s : state) :
  canonical a -> canonical b ->
  is_finite a = true -> is_finite b = true -> is_zero b = false ->
  let r := fst (performCalculation a b "%" s) in
  let q := Qtrunc (value a / value b) in
  snd (performCalculation a b "%" s) = s /\
  is_finite r = true /\
  (value a == inject_Z q * value b + value r)%Q /\
  (is_zero r = true \/ sign_bit r = sign_bit a).
Proof.
  intros Ha Hb Hfa Hfb Hz.
  unfold performCalculation. simpl String.eqb. cbv iota. rewrite Hz.
  cbn [fst snd]. cbv zeta. split; [reflexivity|].
  destruct b as [| |sb|sb mb eb]; try discriminate.
  destruct a as [| |sa|sa ma ea]; try discriminate.
  - set (vb := value (Finite sb mb eb)).
    cbn [rem is_finite is_zero]. change (value (Zero sa)) with 0%Q.
    split; [reflexivity|]. split; [|left; reflexivity].
    assert (E : Qtrunc (0 / vb) = 0).
    { rewrite (Qtrunc_comp _ 0%Q); [reflexivity|].
      unfold Qdiv. ring. }
    rewrite E. ring.
  - destruct (rem_finite_exact sa ma ea sb mb eb Ha Hb) as (H1 & H2 & H3).
    split; [exact H1|]. split; [exact H3|].
    right. exact H2.
Qed.

Lemma modulo_truncating_remainder_witness :
  let a := parseFloat "10" in
  let b := parseFloat "3" in
  let r := fst (performCalculation a b "%" initial_state) in
  let q := Qtrunc (value a / value b) in
  snd (performCalculation a b "%" initial_state) = initial_state /\
  is_finite r = true /\
  (value a == inject_Z q * value b + value r)%Q /\
  (is_zero r = true \/ sign_bit r = sign_bit a).
Proof.
  apply (modulo_truncating_remainder (parseFloat "10") (parseFloat "3")
           initial_state).
  - vm_compute. repeat split; try discriminate. right. discriminate.
  - vm_compute. repeat split; try discriminate. right. discriminate.
  - vm_compute. reflexivity.
  - vm_compute. reflexivity.
  - vm_compute. reflexivity.
Defined.

(** * Further properties of the engine *)

(** ** What came before a clear is forgotten *)

Lemma performCalculation_prepend log a b op s :
  performCalculation a b op (prepend_alerts log s)
  = (fst (performCalculation a b op s),
     prepend_alerts log (snd (performCalculation a b op s))).
Proof.
  unfold performCalculation. case_ifs; cbn [fst snd]; try reflexivity;
    unfold alert, prepend_alerts; cbn; rewrite app_assoc; reflexivity.
Qed.

Lemma updateOperationDisplay_prepend log op v s :
  updateOperationDisplay op v (prepend_alerts log s)
  = prepend_alerts log (updateOperationDisplay op v s).
Proof.
  unfold updateOperationDisplay.
  destruct op as [o|], v as [x|]; try destruct (truthy (Some o)); reflexivity.
Qed.

Lemma handleOperation_prepend log op s :
  handleOperation op (prepend_alerts log s)
  = prepend_alerts log (handleOperation op s).
Proof.
  unfold handleOperation, updateOperationDisplay.
  cbn [prepend_alerts previousValue currentOperation shouldResetDisplay mainDisplay].
  destruct (previousValue s) as [prev|], (currentOperation s) as [o|];
    try (cbv zeta; cbn [previousValue set_currentOperation set_previousValue];
         destruct (truthy (Some op)); reflexivity).
  destruct (truthy (Some o) && negb (shouldResetDisplay s))%bool;
    [|cbv zeta; cbn [previousValue set_currentOperation set_previousValue];
      destruct (truthy (Some op)); reflexivity].
  fold (prepend_alerts log s). rewrite performCalculation_prepend.
  destruct (performCalculation prev (parseFloat (mainDisplay s)) o s)
    as [r s']. cbn [fst snd]. cbv zeta.
  cbn [previousValue set_currentOperation set_previousValue].
  destruct (truthy (Some op)); reflexivity.
Qed.

Lemma handleModulo_prepend log s :
  handleModulo (prepend_alerts log s) = prepend_alerts log (handleModulo s).
Proof.
  unfold handleModulo.
  cbn [prepend_alerts previousValue currentOperation shouldResetDisplay mainDisplay].
  destruct (previousValue s) as [prev|], (currentOperation s) as [o|];
    try reflexivity.
  destruct (truthy (Some o) && negb (shouldResetDisplay s))%bool;
    [|reflexivity].
  fold (prepend_alerts log s). rewrite performCalculation_prepend.
  destruct (performCalculation prev (parseFloat (mainDisplay s)) o s)
    as [r s']. reflexivity.
Qed.

Lemma step_prepend log s ev :
  step (prepend_alerts log s) ev = prepend_alerts log (step s ev).
Proof.
  destruct ev; cbn [step].
  - unfold handleNumberClick. cbn [prepend_alerts shouldResetDisplay mainDisplay].
    case_ifs; reflexivity.
  - unfold handleDecimal. cbn [prepend_alerts shouldResetDisplay mainDisplay].
    case_ifs; reflexivity.
  - apply handleOperation_prepend.
  - apply handleModulo_prepend.
  - reflexivity.
  - unfold handleEquals.
    cbn [prepend_alerts previousValue currentOperation shouldResetDisplay mainDisplay].
    destruct (previousValue s) as [prev|], (currentOperation s) as [op|];
      try reflexivity.
    destruct (truthy (Some op)); [|reflexivity].
    fold (prepend_alerts log s). rewrite performCalculation_prepend.
    destruct (performCalculation prev (parseFloat (mainDisplay s)) op s)
      as [r s']. reflexivity.
  - reflexivity.
  - unfold handleBackspace. cbn [prepend_alerts mainDisplay].
    case_ifs; reflexivity.
Qed.

Lemma run_prepend log evs : forall s,
  run (prepend_alerts log s) evs = prepend_alerts log (run s evs).
Proof.
  induction evs as [|ev evs IH]; intros s; [reflexivity|].
  cbn [run fold_left]. rewrite step_prepend. apply IH.
Qed.

(** X1: a clear wipes the slate.  Whatever state the calculator was in,
    after [handleClear] every sequence of inputs does what it does from
    the initial state; only the log of alerts already shown remains. *)
Theorem clear_forgets (s : state) (evs : list event) :
  run (handleClear s) evs
  = prepend_alerts (alerts s) (run initial_state evs).
Proof.
  rewrite <- run_prepend. f_equal.
  unfold prepend_alerts. cbn. rewrite app_nil_r. reflexivity.
Qed.

(** ** The decimal point *)

Lemma includes_app_dot t : includes (t ++ ".") "." = true.
Proof.
  induction t as [|c r IH].
  - reflexivity.
  - change (String c r ++ ".") with (String c (r ++ ".")).
    rewrite includes_dot_cons, IH. apply orb_true_r.
Qed.

(** X2: a second decimal point changes nothing: pressing the decimal
    point twice in a row is the same as pressing it once, in every
    state. *)
Theorem handleDecimal_idempotent (s : state) :
  handleDecimal (handleDecimal s) = handleDecimal s.
Proof.
  destruct (shouldResetDisplay s) eqn:Hr.
  - unfold handleDecimal. cbv zeta. rewrite Hr. reflexivity.
  - destruct (includes (mainDisplay s) ".") eqn:Hd.
    + assert (E : handleDecimal s = s)
        by (unfold handleDecimal; cbv zeta; rewrite Hr, Hd; reflexivity).
      rewrite !E. reflexivity.
    + assert (E : handleDecimal s = updateDisplay (mainDisplay s ++ ".") s)
        by (unfold handleDecimal; cbv zeta; rewrite Hr, Hd; reflexivity).
      rewrite E. unfold handleDecimal at 1. cbv zeta.
      cbn [updateDisplay shouldResetDisplay mainDisplay].
      rewrite Hr, includes_app_dot. reflexivity.
Qed.

(** ** Equals *)

(** X3: equals does not repeat.  A second [=] right after the first
    changes nothing, whatever the state: the first one consumed the
    pending operation. *)
Theorem handleEquals_idempotent (s : state) :
  handleEquals (handleEquals s) = handleEquals s.
Proof.
  assert (Hnop : forall t, previousValue t = None -> handleEquals t = t).
  { intros t Ht. unfold handleEquals. rewrite Ht. reflexivity. }
  unfold handleEquals at 2 3.
  destruct (previousValue s) as [prev|] eqn:Hp;
    [destruct (currentOperation s) as [op|] eqn:Ho|].
  - destruct (truthy (Some op)) eqn:Ht.
    + destruct (performCalculation prev (parseFloat (mainDisplay s)) op s)
        as [r s']. apply Hnop. reflexivity.
    + unfold handleEquals. rewrite Hp, Ho, Ht. reflexivity.
  - unfold handleEquals. rewrite Hp, Ho. reflexivity.
  - apply Hnop, Hp.
Qed.

(** ** Backspace and what was typed *)

Lemma length_append (s t : string) :
  String.length (s ++ t) = (String.length s + String.length t)%nat.
Proof. induction s as [|c r IH]; simpl; [reflexivity | rewrite IH; reflexivity]. Qed.

Lemma substring_prefix (t u : string) :
  substring 0 (String.length t) (t ++ u) = t.
Proof.
  induction t as [|c r IH].
  - destruct u; reflexivity.
  - simpl. rewrite IH. reflexivity.
Qed.

(** Dropping the last character of [t ++ c] gives [t] back. *)
Lemma slice_app_last (t : string) (c : ascii) :
  slice (t ++ String c "") 0 (-1) = t.
Proof.
  unfold slice. rewrite length_append. cbn [String.length].
  replace (if (0 <? 0)%Z then _ else _) with 0%Z
    by (change (0 <? 0)%Z with false; cbv iota; lia).
  replace (if (-1 <? 0)%Z then _ else _) with (Z.of_nat (String.length t))
    by (change (-1 <? 0)%Z with true; cbv iota; lia).
  replace (Z.to_nat (Z.max (Z.of_nat (String.length t) - 0) 0))
    with (String.length t) by lia.
  apply substring_prefix.
Qed.

Lemma slice_length (t : string) :
  t <> "" ->
  String.length (slice t 0 (-1)) = (String.length t - 1)%nat.
Proof.
  intros Hne. destruct (slice_drop_last t Hne) as [c Hc].
  rewrite Hc at 2. rewrite length_append. simpl. lia.
Qed.

(** X4: backspace undoes the last keystroke of an entry in progress.
    While a number is being typed (reset flag clear, display neither
    empty nor the lone "0"), a digit followed by backspace restores the
    state exactly, and so does a decimal point followed by backspace when
    the display had none. *)
Theorem backspace_undoes_keystroke (s : state) :
  shouldResetDisplay s = false ->
  mainDisplay s <> "" ->
  (forall d, mainDisplay s <> "0" ->
             handleBackspace (handleNumberClick (digit_text d) s) = s) /\
  (includes (mainDisplay s) "." = false ->
   handleBackspace (handleDecimal s) = s).
Proof.
  intros Hr Hne.
  assert (Hlen : (1 <= String.length (mainDisplay s))%nat).
  { destruct (mainDisplay s); [congruence | simpl; lia]. }
  split.
  - intros d H0.
    destruct (digit_text_is_digit d) as (c & Hd & _).
    unfold handleNumberClick. cbv zeta. rewrite Hr.
    destruct (String.eqb_spec (mainDisplay s) "0") as [E|_]; [congruence|].
    cbn [andb]. rewrite Hd.
    unfold handleBackspace. cbv zeta. cbn [updateDisplay mainDisplay].
    rewrite length_append. cbn [String.length].
    replace (1 <? String.length (mainDisplay s) + 1)%nat with true
      by (symmetry; apply Nat.ltb_lt; lia).
    rewrite slice_app_last. destruct s; reflexivity.
  - intros Hd. unfold handleDecimal. cbv zeta. rewrite Hr, Hd. cbn [negb].
    unfold handleBackspace. cbv zeta. cbn [updateDisplay mainDisplay].
    rewrite length_append. cbn [String.length].
    replace (1 <? String.length (mainDisplay s) + 1)%nat with true
      by (symmetry; apply Nat.ltb_lt; lia).
    rewrite slice_app_last. destruct s; reflexivity.
Qed.

Lemma backspace_undoes_keystroke_witness :
  let s := run initial_state [Number D1; Number D2] in
  handleBackspace (handleNumberClick (digit_text D3) s) = s /\
  handleBackspace (handleDecimal s) = s.
Proof.
  pose proof (backspace_undoes_keystroke
                (run initial_state [Number D1; Number D2])
                eq_refl ltac:(vm_compute; discriminate)) as [H1 H2].
  split.
  - apply H1. vm_compute. discriminate.
  - apply H2. vm_compute. reflexivity.
Defined.

Lemma backspace_length (s : state) :
  (1 < String.length (mainDisplay s))%nat ->
  String.length (mainDisplay (handleBackspace s))
  = (String.length (mainDisplay s) - 1)%nat.
Proof.
  intros H. unfold handleBackspace. cbv zeta.
  replace (1 <? String.length (mainDisplay s))%nat with true
    by (symmetry; apply Nat.ltb_lt; exact H).
  cbn [updateDisplay mainDisplay]. apply slice_length.
  intros E. rewrite E in H. simpl in H. lia.
Qed.

Lemma backspace_short (s : state) :
  (String.length (mainDisplay s) <= 1)%nat ->
  mainDisplay (handleBackspace s) = "0" /\
  shouldResetDisplay (handleBackspace s) = true.
Proof.
  intros H. unfold handleBackspace. cbv zeta.
  replace (1 <? String.length (mainDisplay s))%nat with false
    by (symmetry; apply Nat.ltb_ge; exact H).
  split; reflexivity.
Qed.

Lemma backspaces_reach_zero n : forall s,
  (1 <= n)%nat -> (String.length (mainDisplay s) <= n)%nat ->
  mainDisplay (run s (repeat Backspace n)) = "0" /\
  shouldResetDisplay (run s (repeat Backspace n)) = true.
Proof.
  induction n as [|n IH]; intros s Hn Hlen; [lia|].
  cbn [repeat run fold_left step]. fold (run (handleBackspace s) (repeat Backspace n)).
  destruct (Nat.ltb_spec 1 (String.length (mainDisplay s))) as [Hl|Hl].
  - apply IH; [lia|]. rewrite backspace_length by exact Hl. lia.
  - destruct (backspace_short s Hl) as [Hd Hr].
    destruct n as [|n']; [split; assumption|].
    apply IH; [lia|]. rewrite Hd. simpl. lia.
Qed.

(** X5: backspace never leaves the display empty, and enough of them
    always lead back to "0": after as many backspaces as the display has
    characters (at least one), or more, the display is "0" and the reset
    flag is set. *)
Theorem backspace_reaches_zero (s : state) (n : nat) :
  (1 <= n)%nat -> (String.length (mainDisplay s) <= n)%nat ->
  mainDisplay (handleBackspace s) <> "" /\
  mainDisplay (run s (repeat Backspace n)) = "0" /\
  shouldResetDisplay (run s (repeat Backspace n)) = true.
Proof.
  intros Hn Hlen. split; [|apply backspaces_reach_zero; assumption].
  destruct (Nat.ltb_spec 1 (String.length (mainDisplay s))) as [Hl|Hl].
  - intros E. pose proof (backspace_length s Hl) as H.
    rewrite E in H. simpl in H. lia.
  - destruct (backspace_short s Hl) as [-> _]. discriminate.
Qed.

Lemma backspace_reaches_zero_witness :
  mainDisplay (handleBackspace minus_five_shown) <> "" /\
  mainDisplay (run minus_five_shown (repeat Backspace 2)) = "0" /\
  shouldResetDisplay (run minus_five_shown (repeat Backspace 2)) = true.
Proof.
  apply (backspace_reaches_zero minus_five_shown 2).
  - lia.
  - vm_compute. lia.
Defined.

(** ** The handlers, case by case *)

Lemma performCalculation_value a b op s :
  fst (performCalculation a b op s) = calculate a b op.
Proof. unfold calculate, performCalculation. case_ifs; reflexivity. Qed.

(** [performCalculation] touches the log of alerts only, and only for a
    zero divisor. *)
Lemma performCalculation_alert a b op s :
  snd (performCalculation a b op s) = s \/
  ((op = "/" \/ op = "%") /\ is_zero b = true /\
   snd (performCalculation a b op s) = alert (zero_notice op) s).
Proof.
  unfold performCalculation.
  destruct (String.eqb_spec op "+"); [left; reflexivity|].
  destruct (String.eqb_spec op "-"); [left; reflexivity|].
  destruct (String.eqb_spec op "*"); [left; reflexivity|].
  destruct (String.eqb_spec op "/") as [->|].
  { destruct (is_zero b) eqn:Hz; [right | left; reflexivity].
    split; [left; reflexivity|]. split; reflexivity. }
  destruct (String.eqb_spec op "%") as [->|]; [|left; reflexivity].
  destruct (is_zero b) eqn:Hz; [right | left; reflexivity].
  split; [right; reflexivity|]. split; reflexivity.
Qed.

Lemma performCalculation_state a b op s :
  performCalculation a b op s
  = (calculate a b op,
     {| previousValue := previousValue s;
        currentOperation := currentOperation s;
        shouldResetDisplay := shouldResetDisplay s;
        mainDisplay := mainDisplay s;
        operationDisplay := operationDisplay s;
        alerts := alerts (snd (performCalculation a b op s)) |}).
Proof.
  rewrite <- performCalculation_value with (s := s).
  destruct (performCalculation_alert a b op s) as [E|(_ & _ & E)];
    destruct (performCalculation a b op s) as [r s']; cbn [fst snd] in *;
    subst s'; destruct s; reflexivity.
Qed.

Lemma handleOperation_eq op s : handleOperation op s = operator_outcome op s.
Proof.
  unfold handleOperation, operator_outcome, pending, indicator_text,
    updateOperationDisplay.
  destruct (previousValue s) as [prev|], (currentOperation s) as [o|];
    try (cbv zeta; cbn [previousValue set_currentOperation set_previousValue];
         destruct (truthy (Some op)); reflexivity).
  destruct (truthy (Some o)); cbn [andb];
    [|cbv zeta; cbn [previousValue set_currentOperation set_previousValue];
      destruct (truthy (Some op)); reflexivity].
  destruct (shouldResetDisplay s); cbn [negb];
    [cbv zeta; cbn [previousValue set_currentOperation set_previousValue];
     destruct (truthy (Some op)); reflexivity|].
  rewrite performCalculation_state. cbv zeta.
  cbn [previousValue set_currentOperation set_previousValue updateDisplay].
  destruct (truthy (Some op)); reflexivity.
Qed.

Lemma handleModulo_eq s : handleModulo s = operator_outcome "%" s.
Proof.
  unfold handleModulo, operator_outcome, pending, indicator_text,
    updateOperationDisplay.
  destruct (previousValue s) as [prev|], (currentOperation s) as [o|];
    try reflexivity.
  destruct (truthy (Some o)); cbn [andb]; [|reflexivity].
  destruct (shouldResetDisplay s); cbn [negb]; [reflexivity|].
  rewrite performCalculation_state. reflexivity.
Qed.

Lemma handleEquals_eq s : handleEquals s = equals_outcome s.
Proof.
  unfold handleEquals, equals_outcome, pending.
  destruct (previousValue s) as [prev|], (currentOperation s) as [o|];
    try reflexivity.
  destruct (truthy (Some o)); [|reflexivity].
  rewrite performCalculation_state. reflexivity.
Qed.

(** ** Alerts *)


(** ** The operation indicator *)

Lemma operator_symbols_truthy o : In o operator_symbols -> truthy (Some o) = true.
Proof.
  intros H. repeat (destruct H as [<-|H]; [reflexivity|]). destruct H.
Qed.

Lemma operator_outcome_consistent op s :
  In op operator_symbols -> indicator_consistent (operator_outcome op s).
Proof.
  intros Hop. right. unfold operator_outcome, indicator_text.
  rewrite (operator_symbols_truthy op Hop).
  destruct (pending s) as [[a o]|]; [destruct (shouldResetDisplay s)|];
    eexists _, op; repeat split; assumption.
Qed.

Lemma step_indicator_consistent s ev :
  indicator_consistent s -> indicator_consistent (step s ev).
Proof.
  intros H. destruct ev; cbn [step].
  - unfold handleNumberClick. case_ifs; exact H.
  - unfold handleDecimal. case_ifs; exact H.
  - rewrite handleOperation_eq. apply operator_outcome_consistent.
    destruct o; simpl; auto.
  - rewrite handleModulo_eq. apply operator_outcome_consistent.
    simpl; auto 6.
  - exact H.
  - rewrite handleEquals_eq. unfold equals_outcome.
    destruct (pending s) as [[a o]|]; [|exact H].
    left. repeat split.
  - left. repeat split.
  - unfold handleBackspace. case_ifs; exact H.
Qed.

(** X7: the indicator always tells the pending operation.  In every state
    reached from the initial one, either nothing is pending and the
    indicator is empty, or an operand [v] and one of the five symbols
    [+ - * / %] are pending and the indicator reads "[v] [op]". *)
Theorem indicator_shows_pending (evs : list event) :
  indicator_consistent (run initial_state evs).
Proof.
  induction evs as [|ev evs IH] using rev_ind.
  - left. repeat split.
  - rewrite run_snoc. apply step_indicator_consistent, IH.
Qed.

(** ** A zero divisor met by an operator press *)

(** X8: the operator buttons absorb a zero divisor as equals does.  With
    operand [a] and [/] or [%] pending and a freshly typed display that
    reads as zero, pressing an operator [op] shows one notice, puts [a]
    back on the display, keeps [a] as the pending operand and records
    [op]. *)
Theorem operator_absorbs_zero_divisor
    (s : state) (a : number) (o op : string) :
  previousValue s = Some a ->
  currentOperation s = Some o ->
  o = "/" \/ o = "%" ->
  shouldResetDisplay s = false ->
  is_zero (parseFloat (mainDisplay s)) = true ->
  handleOperation op s =
    {| previousValue := Some a;
       currentOperation := Some op;
       shouldResetDisplay := true;
       mainDisplay := toString a;
       operationDisplay := indicator_text a op;
       alerts := (alerts s ++ [zero_notice o])%list |}.
Proof.
  intros Hp Ho Hop Hr Hz. rewrite handleOperation_eq.
  unfold operator_outcome, pending. rewrite Hp, Ho, Hr.
  assert (Ht : truthy (Some o) = true) by (destruct Hop as [-> | ->]; reflexivity).
  rewrite Ht. cbv zeta.
  assert (Hc : calculate a (parseFloat (mainDisplay s)) o = a).
  { unfold calculate, performCalculation.
    destruct Hop as [-> | ->]; simpl String.eqb; cbv iota; rewrite Hz;
      reflexivity. }
  assert (Ha : alerts (snd (performCalculation a (parseFloat (mainDisplay s)) o s))
               = (alerts s ++ [zero_notice o])%list).
  { unfold performCalculation.
    destruct Hop as [-> | ->]; simpl String.eqb; cbv iota; rewrite Hz;
      reflexivity. }
  rewrite Hc, Ha. reflexivity.
Qed.

Lemma operator_absorbs_zero_divisor_witness :
  let s := run initial_state [Number D7; Modulo; Number D0] in
  handleOperation "+" s =
    {| previousValue := Some (parseFloat "7");
       currentOperation := Some "+";
       shouldResetDisplay := true;
       mainDisplay := "7";
       operationDisplay := "7 +";
       alerts := ["Cannot perform modulo with zero!"] |}.
Proof.
  exact (operator_absorbs_zero_divisor
           (run initial_state [Number D7; Modulo; Number D0])
           (parseFloat "7") "%" "+"
           ltac:(vm_compute; reflexivity) ltac:(vm_compute; reflexivity)
           (or_intror eq_refl) ltac:(vm_compute; reflexivity)
           ltac:(vm_compute; reflexivity)).
Defined.

(** ** NaN *)

(** X9: NaN is contagious.  Once either operand is NaN, each of the five
    operations returns NaN, the guarded divisions included. *)
Theorem calculation_with_NaN (a b : number) (op : string) (s : state) :
  In op operator_symbols ->
  a = NaN \/ b = NaN ->
  fst (performCalculation a b op s) = NaN.
Proof.
  intros Hop Hab. unfold performCalculation.
  assert (Hcases : op = "+" \/ op = "-" \/ op = "*" \/ op = "/" \/ op = "%").
  { simpl in Hop. intuition auto. }
  destruct Hab as [-> | ->].
  - destruct Hcases as [-> | [-> | [-> | [-> | ->]]]];
      simpl String.eqb; cbv iota; try destruct (is_zero b); reflexivity.
  - destruct Hcases as [-> | [-> | [-> | [-> | ->]]]];
      simpl String.eqb; cbv iota; cbn [is_zero]; destruct a; reflexivity.
Qed.

Lemma calculation_with_NaN_witness :
  fst (performCalculation (parseFloat "-") (parseFloat "3") "+" initial_state)
  = NaN.
Proof.
  apply (calculation_with_NaN (parseFloat "-") (parseFloat "3") "+"
           initial_state).
  - simpl. auto.
  - left. vm_compute. reflexivity.
Defined.

(** ** A result as the next operand *)

Lemma pending_fields s a o :
  pending s = Some (a, o) ->
  previousValue s = Some a /\ currentOperation s = Some o /\
  truthy (Some o) = true.
Proof.
  unfold pending.
  destruct (previousValue s), (currentOperation s) as [o'|]; try discriminate.
  destruct (truthy (Some o')) eqn:Ht; [|discriminate].
  intros H. injection H as <- <-. auto.
Qed.

Lemma calculate_canonical a b op :
  canonical a -> canonical b -> canonical (calculate a b op).
Proof. intros Ha Hb. apply performCalculation_canonical; assumption. Qed.

(** X10: a result can be used as the next left-hand operand.  After equals
    has finished a pending operation, an operator press takes the result
    just shown as its pending operand: the number computed, read back
    from its own text (SameValueZero), with the display still showing
    it. *)
Theorem result_carries_over (s : state) (a : number) (o op : string) :
  binary64_state s ->
  pending s = Some (a, o) ->
  let r := calculate a (parseFloat (mainDisplay s)) o in
  let s' := handleOperation op (handleEquals s) in
  mainDisplay s' = toString r /\
  currentOperation s' = Some op /\
  exists r', previousValue s' = Some r' /\ SameValueZero r r'.
Proof.
  intros Hs Hp r s'.
  destruct (pending_fields s a o Hp) as (Ha & _ & _).
  assert (Hc : canonical r).
  { apply calculate_canonical; [apply (Hs a Ha) | apply parseFloat_canonical]. }
  unfold s'. rewrite handleEquals_eq. unfold equals_outcome. rewrite Hp.
  fold r. rewrite handleOperation_eq. unfold operator_outcome, pending.
  cbn [previousValue currentOperation mainDisplay].
  split; [reflexivity|]. split; [reflexivity|].
  exists (parseFloat (toString r)). split; [reflexivity|].
  rewrite (parseFloat_toString r Hc). destruct r; reflexivity.
Qed.

Lemma result_carries_over_witness :
  let s := five_plus_three_typed in
  let r := calculate (parseFloat "5") (parseFloat (mainDisplay s)) "+" in
  let s' := handleOperation "*" (handleEquals s) in
  mainDisplay s' = toString r /\
  currentOperation s' = Some "*" /\
  exists r', previousValue s' = Some r' /\ SameValueZero r r'.
Proof.
  apply (result_carries_over five_plus_three_typed (parseFloat "5") "+" "*").
  - intros a H. vm_compute in H. injection H as <-. simpl. lia.
  - vm_compute. reflexivity.
Defined.

(** ** The square is never negative *)

Lemma round_pos_sign_bit q : sign_bit (round_pos false q) = false.
Proof.
  unfold round_pos. cbv zeta.
  match goal with
  | |- context [if ?c then (_, _) else (_, _)] => destruct c
  end.
  - change (2 ^ 52) with (Zpos (Z.to_pos (2 ^ 52))). cbv iota beta.
    destruct (_ >? 971); reflexivity.
  - destruct (nearest_even _); try reflexivity.
    destruct (_ >? 971); reflexivity.
Qed.

Lemma round_positive_sign q : (0 < q)%Q -> sign_bit (round q) = false.
Proof.
  intros Hq. change q with (signed false q).
  rewrite round_signed by exact Hq. apply round_pos_sign_bit.
Qed.

Lemma value_nonzero s m e : ~ (value (Finite s m e) == 0)%Q.
Proof.
  cbn [value]. pose proof (pow2_pos e) as Hp.
  assert (Hm : (0 < inject_Z (Zpos m))%Q) by reflexivity.
  assert (0 < inject_Z (Zpos m) * pow2 e)%Q by (apply Qmult_lt_0_compat; assumption).
  destruct s; cbn [signed]; lra.
Qed.

Lemma mul_self_sign v : sign_bit (mul v v) = false.
Proof.
  destruct v as [|s|s|s m e]; cbn [mul sign_bit]; try (destruct s; reflexivity).
  - reflexivity.
  - apply round_positive_sign.
    pose proof (value_nonzero s m e) as Hn.
    set (x := value (Finite s m e)) in *. nra.
Qed.

(** The text of a Number that is not negative does not start with the
    minus sign. *)
Lemma toString_head x :
  canonical x -> sign_bit x = false ->
  exists c r, toString x = String c r /\ c <> "-"%char.
Proof.
  intros Hc Hs. destruct x as [|s|s|s m e]; cbn [sign_bit] in Hs; subst;
    try (eexists _, _; split; [reflexivity | discriminate]).
  destruct (shortest_digits_sound m e Hc) as [Hr Hd].
  cbn [toString app]. unfold unsigned_text.
  destruct (shortest_digits m e) as [ds n]. cbn [fst] in Hd.
  unfold reads_as in Hr. apply number_eqb_eq in Hr.
  assert (Hne : ds <> []).
  { apply decimal_value_finite in Hr. intros ->. discriminate Hr. }
  destruct (format_head ds n Hd Hne) as (c & r & Ef & Hdig).
  rewrite Ef. exists c, (string_of_list_ascii r).
  split; [reflexivity|]. intros ->. discriminate Hdig.
Qed.

(** X11: squaring never shows a negative number: whatever the state, the
    display after [handleSquare] is not empty and does not start with a
    minus sign. *)
Theorem square_never_negative (s : state) :
  exists c r, mainDisplay (handleSquare s) = String c r /\ c <> "-"%char.
Proof.
  unfold handleSquare. cbv zeta.
  cbn [mainDisplay set_shouldResetDisplay updateDisplay].
  apply toString_head; [apply mul_canonical | apply mul_self_sign].
Qed.

(** ** The keyboard *)




(** A key text of several characters can pass the digit test. *)
Example long_key_passes_digit_test :
  fst (handleKeydown "5x" initial_state) = handleNumberClick "5x" initial_state.
Proof. reflexivity. Qed.

(** ** Typing a number *)

Lemma digit_text_spec d :
  exists c, digit_text d = String c "" /\ is_digit c = true /\
            digit_value c = digit_number d.
Proof. destruct d; eexists; repeat split. Qed.

Lemma list_ascii_of_string_app s t :
  list_ascii_of_string (s ++ t)
  = (list_ascii_of_string s ++ list_ascii_of_string t)%list.
Proof.
  induction s as [|c r IH]; [reflexivity|].
  cbn [append list_ascii_of_string]. rewrite IH. reflexivity.
Qed.

Lemma entering_first d : entering (digit_text d) (digit_number d).
Proof.
  destruct (digit_text_spec d) as (c & -> & Hc & Hv).
  repeat split.
  - constructor; [exact Hc | constructor].
  - discriminate.
  - cbn [list_ascii_of_string]. unfold digits_value. cbn [fold_left]. lia.
Qed.

Lemma entering_next t v d :
  entering t v -> t <> "0" ->
  entering (t ++ digit_text d) (v * 10 + digit_number d).
Proof.
  intros (Hd & Hne & Hv) H0.
  destruct (digit_text_spec d) as (c & -> & Hc & Hcv).
  repeat split.
  - rewrite list_ascii_of_string_app. apply Forall_app. split; [exact Hd|].
    constructor; [exact Hc | constructor].
  - destruct t; [congruence | discriminate].
  - rewrite list_ascii_of_string_app, digits_value_app, Hv.
    cbn [list_ascii_of_string List.length]. unfold digits_value at 1.
    cbn [fold_left]. change (10 ^ Z.of_nat 1) with 10. lia.
Qed.

(** A digit typed into an entry in progress extends it. *)
Lemma type_digit s t v d :
  shouldResetDisplay s = false -> mainDisplay s = t -> entering t v ->
  exists t',
    handleNumberClick (digit_text d) s = updateDisplay t' s /\
    entering t' (v * 10 + digit_number d).
Proof.
  intros Hr Ht He. unfold handleNumberClick. cbv zeta. rewrite Hr, Ht.
  replace (negb (digit_text d =? ".")) with true by (destruct d; reflexivity).
  rewrite andb_true_r.
  destruct (String.eqb_spec t "0") as [E|E].
  - exists (digit_text d). split; [reflexivity|].
    destruct He as (_ & _ & Hv). rewrite E in Hv.
    change (digits_value (list_ascii_of_string "0")) with 0 in Hv.
    subst v. apply entering_first.
  - exists (t ++ digit_text d). split; [reflexivity|].
    apply entering_next; assumption.
Qed.

Lemma typed_value_snoc ds d :
  typed_value (ds ++ [d]) = typed_value ds * 10 + digit_number d.
Proof. unfold typed_value. rewrite fold_left_app. reflexivity. Qed.

Lemma run_app s evs1 evs2 : run s (evs1 ++ evs2) = run (run s evs1) evs2.
Proof. unfold run. apply fold_left_app. Qed.

(** Typing digits after an operator, equals or clear starts a new entry
    and builds the text of the integer typed. *)
Lemma run_digits ds : forall s,
  ds <> [] -> shouldResetDisplay s = true ->
  exists t,
    run s (map Number ds) = set_shouldResetDisplay false (updateDisplay t s) /\
    entering t (typed_value ds).
Proof.
  induction ds as [|d ds IH] using rev_ind; intros s Hne Hr; [congruence|].
  rewrite map_app, run_app. cbn [map run fold_left step].
  rewrite typed_value_snoc.
  destruct ds as [|d0 ds'].
  - cbn [map run fold_left]. exists (digit_text d).
    split.
    + unfold handleNumberClick. cbv zeta. rewrite Hr. reflexivity.
    + change (typed_value []) with 0. apply entering_first.
  - destruct (IH s ltac:(discriminate) Hr) as (t & Et & He).
    rewrite Et.
    destruct (type_digit (set_shouldResetDisplay false (updateDisplay t s))
                t (typed_value (d0 :: ds')) d eq_refl eq_refl He)
      as (t' & E' & He').
    exists t'. split; [rewrite E'; reflexivity | exact He'].
Qed.

Lemma round_comp q q' : (q == q')%Q -> round q = round q'.
Proof. intros H. unfold round. rewrite (Qred_complete _ _ H). reflexivity. Qed.

Lemma decimal_value_integer v :
  0 <= v -> decimal_value false v 0 = number_of_Z v.
Proof.
  intros Hv. unfold decimal_value, number_of_Z.
  destruct (Z.leb_spec v 0) as [H|H].
  - assert (v = 0) by lia. subst v. reflexivity.
  - change (inject_Z v) with (signed false (inject_Z v)).
    rewrite round_signed.
    + f_equal. apply Qred_complete. change ((10 # 1) ^ 0)%Q with 1%Q.
      cbn [signed]. ring.
    + cbn [signed]. change 0%Q with (inject_Z 0). rewrite <- Zlt_Qlt. exact H.
Qed.

(** The text of an entry reads as the integer typed. *)
Lemma entering_parse t v : entering t v -> parseFloat t = number_of_Z v.
Proof.
  intros (Hd & Hne & Hv). unfold parseFloat.
  destruct (list_ascii_of_string t) as [|c r] eqn:E.
  - destruct t; [congruence | discriminate E].
  - inversion Hd as [|? ? Hc Hr]; subst.
    change (parse_chars (c :: r))
      with (parse_chars ((if false then ["-"%char] else []) ++ c :: r)%list).
    rewrite parse_chars_digit by exact Hc.
    rewrite <- (app_nil_r (c :: r)) at 1.
    rewrite parse_unsigned_integer; try exact I; try assumption;
      try discriminate.
    rewrite parse_exponent_nil. apply decimal_value_integer.
    apply digits_value_nonneg. exact Hd.
Qed.

(** The Number for a natural number below [2^53] is the number
    itself. *)
Lemma number_of_Z_exact z :
  0 <= z < 2 ^ 53 ->
  (z = 0 /\ number_of_Z z = Zero false) \/
  (0 < z /\
   exists m e, number_of_Z z = Finite false m e /\
               canonical (Finite false m e) /\
               (value (Finite false m e) == inject_Z z)%Q).
Proof.
  intros Hz. destruct (Z.eq_dec z 0) as [->|Hne].
  - left. split; reflexivity.
  - right. split; [lia|].
    destruct (round_dyadic false (inject_Z z) z 0) as (m & e & Er & Ev).
    + lia.
    + lia.
    + cbn [signed]. change (pow2 0) with 1%Q. ring.
    + exists m, e. split; [exact Er|]. split; [|exact Ev].
      rewrite <- Er. apply round_canonical.
Qed.

Lemma number_of_Z_value z :
  0 <= z < 2 ^ 53 ->
  is_finite (number_of_Z z) = true /\
  (value (number_of_Z z) == inject_Z z)%Q.
Proof.
  intros Hz.
  destruct (number_of_Z_exact z Hz) as [[-> ->]|(_ & m & e & -> & _ & Ev)].
  - split; reflexivity.
  - split; [reflexivity | exact Ev].
Qed.

(** X13: what is typed is what is read.  From any state in which the next
    digit starts a new number, typing digits leaves the pending operation
    alone and yields a display that [parseFloat] reads as the Number
    nearest to the integer typed; below [2^53] that Number is the integer
    itself. *)
Theorem typed_number_is_read (s : state) (ds : list digit) :
  ds <> [] -> shouldResetDisplay s = true ->
  let s' := run s (map Number ds) in
  parseFloat (mainDisplay s') = number_of_Z (typed_value ds) /\
  previousValue s' = previousValue s /\
  currentOperation s' = currentOperation s /\
  shouldResetDisplay s' = false /\
  (typed_value ds < 2 ^ 53 ->
   is_finite (number_of_Z (typed_value ds)) = true /\
   (value (number_of_Z (typed_value ds)) == inject_Z (typed_value ds))%Q).
Proof.
  intros Hne Hr s'.
  destruct (run_digits ds s Hne Hr) as (t & Et & He).
  unfold s'. rewrite Et. cbn [mainDisplay previousValue currentOperation
    shouldResetDisplay set_shouldResetDisplay updateDisplay].
  split; [apply entering_parse, He|]. repeat split.
  - apply number_of_Z_value. split; [|assumption].
    destruct He as (Hd & _ & <-). apply digits_value_nonneg, Hd.
  - apply number_of_Z_value. split; [|assumption].
    destruct He as (Hd & _ & <-). apply digits_value_nonneg, Hd.
Qed.

Lemma typed_number_is_read_witness :
  let s' := run initial_state (map Number [D0; D0; D1; D2; D0]) in
  (parseFloat (mainDisplay s') = number_of_Z 120 /\
   previousValue s' = None /\ currentOperation s' = None /\
   shouldResetDisplay s' = false) /\
  is_finite (number_of_Z 120) = true /\
  (value (number_of_Z 120) == inject_Z 120)%Q.
Proof.
  destruct (typed_number_is_read initial_state [D0; D0; D1; D2; D0]
              ltac:(discriminate) eq_refl) as (H1 & H2 & H3 & H4 & H5).
  split; [repeat split; assumption|].
  apply H5. vm_compute. reflexivity.
Defined.

(** ** Arithmetic on typed integers *)

(** Rounding a rational that a Number of the format denotes returns that
    Number. *)
Lemma round_value s m e q :
  canonical (Finite s m e) -> (q == value (Finite s m e))%Q ->
  round q = Finite s m e.
Proof.
  intros Hc Hq. rewrite (round_comp _ _ Hq). cbn [value].
  assert (Hpos : (0 < inject_Z (Zpos m) * pow2 e)%Q).
  { apply Qmult_lt_0_compat; [reflexivity | apply pow2_pos]. }
  rewrite round_signed by exact Hpos.
  apply round_pos_canonical_value; [exact Hc | apply Qred_correct].
Qed.

Lemma operator_text_symbol o : In (operator_text o) operator_symbols.
Proof. destruct o; simpl; auto. Qed.

(** The four operations on natural numbers below [2^53]: the exact
    result, rounded once. *)
Lemma calculate_integers o a b :
  0 <= a < 2 ^ 53 -> 0 <= b < 2 ^ 53 -> (o = Divide -> b <> 0) ->
  calculate (number_of_Z a) (number_of_Z b) (operator_text o)
  = round (exact_result o (inject_Z a) (inject_Z b)).
Proof.
  intros Ha Hb Hdiv.
  destruct (number_of_Z_exact a Ha) as [[-> Ea]|(Hap & ma & ea & Ea & Hca & Eva)];
    destruct (number_of_Z_exact b Hb) as [[-> Eb]|(Hbp & mb & eb & Eb & Hcb & Evb)];
    rewrite ?Ea, ?Eb.
  - destruct o; reflexivity.
  - destruct o; unfold calculate, performCalculation; simpl String.eqb;
      cbv iota; cbn [fst is_zero add sub mul div opp xorb exact_result].
    + symmetry. apply round_value; [exact Hcb|]. rewrite Evb. ring.
    + symmetry. apply round_value; [exact Hcb|].
      cbn [value signed negb] in Evb |- *. rewrite Evb. ring.
    + symmetry. apply (round_comp _ 0%Q). ring.
    + symmetry. apply (round_comp _ 0%Q). unfold Qdiv. ring.
  - destruct o; unfold calculate, performCalculation; simpl String.eqb;
      cbv iota; cbn [fst is_zero add sub mul div opp xorb exact_result].
    + symmetry. apply round_value; [exact Hca|]. rewrite Eva. ring.
    + symmetry. apply round_value; [exact Hca|]. rewrite Eva. ring.
    + symmetry. apply (round_comp _ 0%Q). ring.
    + exfalso. apply Hdiv; reflexivity.
  - destruct o; unfold calculate, performCalculation; simpl String.eqb;
      cbv iota; cbn [fst is_zero add sub mul div opp exact_result].
    + apply round_comp. rewrite Eva, Evb. reflexivity.
    + apply round_comp. cbn [value signed negb] in Eva, Evb |- *.
      rewrite Eva, Evb. ring.
    + apply round_comp. rewrite Eva, Evb. reflexivity.
    + apply round_comp. rewrite Eva, Evb. reflexivity.
Qed.

Ltac state_fields :=
  cbn [previousValue currentOperation shouldResetDisplay mainDisplay
       operationDisplay alerts set_shouldResetDisplay updateDisplay
       initial_state].

(** The state after [n1 o n2], typed from the initial state. *)
Lemma operands_typed ds1 o ds2 :
  ds1 <> [] -> ds2 <> [] ->
  exists t1 t2 ind,
    entering t1 (typed_value ds1) /\ entering t2 (typed_value ds2) /\
    run initial_state (map Number ds1 ++ Operation o :: map Number ds2)
    = {| previousValue := Some (parseFloat t1);
         currentOperation := Some (operator_text o);
         shouldResetDisplay := false;
         mainDisplay := t2;
         operationDisplay := ind;
         alerts := [] |}.
Proof.
  intros H1 H2. rewrite run_app.
  destruct (run_digits ds1 initial_state H1 eq_refl) as (t1 & E1 & He1).
  rewrite E1. cbn [run fold_left step].
  rewrite handleOperation_eq. unfold operator_outcome, pending. state_fields.
  match goal with
  | |- context [fold_left step _ ?s] =>
      destruct (run_digits ds2 s H2 eq_refl) as (t2 & E2 & He2)
  end.
  unfold run in E2. rewrite E2. state_fields.
  eexists t1, t2, _. repeat split; try apply He1; try apply He2.
Qed.

Lemma pending_typed a o t ind log :
  pending {| previousValue := Some a;
             currentOperation := Some (operator_text o);
             shouldResetDisplay := false;
             mainDisplay := t;
             operationDisplay := ind;
             alerts := log |}
  = Some (a, operator_text o).
Proof. destruct o; reflexivity. Qed.

(** X14: the calculator computes correctly on typed integers.  From the
    initial state, typing a natural number, one of [+ - * /], a second
    natural number and [=], both below [2^53] and the second not zero
    when dividing, shows the text of the exact result rounded once to the
    nearest Number; nothing stays pending and no alert is raised. *)
Theorem typed_calculation (ds1 ds2 : list digit) (o : operator) :
  ds1 <> [] -> ds2 <> [] ->
  typed_value ds1 < 2 ^ 53 -> typed_value ds2 < 2 ^ 53 ->
  (o = Divide -> typed_value ds2 <> 0) ->
  run initial_state (calculation_keys ds1 o ds2)
  = {| previousValue := None;
       currentOperation := None;
       shouldResetDisplay := true;
       mainDisplay :=
         toString (round (exact_result o (inject_Z (typed_value ds1))
                            (inject_Z (typed_value ds2))));
       operationDisplay := "";
       alerts := [] |}.
Proof.
  intros H1 H2 Hb1 Hb2 Hdiv. unfold calculation_keys.
  destruct (operands_typed ds1 o ds2 H1 H2) as (t1 & t2 & ind & He1 & He2 & E).
  rewrite app_comm_cons, app_assoc, run_app, E. cbn [run fold_left step].
  rewrite handleEquals_eq. unfold equals_outcome.
  rewrite pending_typed. state_fields.
  rewrite (entering_parse _ _ He1), (entering_parse _ _ He2).
  assert (Hn1 : 0 <= typed_value ds1)
    by (destruct He1 as (Hd & _ & <-); apply digits_value_nonneg, Hd).
  assert (Hn2 : 0 <= typed_value ds2)
    by (destruct He2 as (Hd & _ & <-); apply digits_value_nonneg, Hd).
  rewrite calculate_integers by (try split; assumption).
  f_equal.
  match goal with
  | |- alerts (snd (performCalculation ?a ?b ?op ?s)) = _ =>
      destruct (performCalculation_alert a b op s) as [->|(Hop & Hz & _)]
  end; [reflexivity|].
  exfalso. destruct o; try (destruct Hop; discriminate).
  destruct (number_of_Z_exact (typed_value ds2) ltac:(lia))
    as [[E0 _]|(_ & m & e & Em & _)].
  - apply Hdiv; [reflexivity | exact E0].
  - rewrite Em in Hz. discriminate.
Qed.

Lemma typed_calculation_witness :
  run initial_state (calculation_keys [D1; D2] Subtract [D3; D0])
  = {| previousValue := None;
       currentOperation := None;
       shouldResetDisplay := true;
       mainDisplay := toString (round (exact_result Subtract (inject_Z 12)
                                         (inject_Z 30)));
       operationDisplay := "";
       alerts := [] |}.
Proof.
  apply (typed_calculation [D1; D2] [D3; D0] Subtract);
    try discriminate; vm_compute; reflexivity.
Defined.

(** X15: operators are applied from left to right, without precedence.
    From the initial state, [n1 o1 n2 o2] shows the text of [n1 o1 n2],
    and [n1 o1 n2 o2 n3 =] then shows the text of [(n1 o1 n2) o2 n3],
    computed on the Numbers the three entries read as. *)
Theorem chained_left_to_right
    (ds1 ds2 ds3 : list digit) (o1 o2 : operator) :
  ds1 <> [] -> ds2 <> [] -> ds3 <> [] ->
  let x1 := number_of_Z (typed_value ds1) in
  let x2 := number_of_Z (typed_value ds2) in
  let x3 := number_of_Z (typed_value ds3) in
  let r := calculate x1 x2 (operator_text o1) in
  mainDisplay
    (run initial_state
       (map Number ds1 ++ Operation o1 :: map Number ds2 ++ [Operation o2]))
  = toString r /\
  mainDisplay (run initial_state (chained_keys ds1 o1 ds2 o2 ds3))
  = toString (calculate r x3 (operator_text o2)).
Proof.
  intros H1 H2 H3 x1 x2 x3 r.
  destruct (operands_typed ds1 o1 ds2 H1 H2) as (t1 & t2 & ind & He1 & He2 & E).
  assert (Eop :
    run initial_state
      (map Number ds1 ++ Operation o1 :: map Number ds2 ++ [Operation o2])
    = {| previousValue := Some r;
         currentOperation := Some (operator_text o2);
         shouldResetDisplay := true;
         mainDisplay := toString r;
         operationDisplay := indicator_text r (operator_text o2);
         alerts :=
           alerts (snd (performCalculation x1 x2 (operator_text o1)
                          {| previousValue := Some (parseFloat t1);
                             currentOperation := Some (operator_text o1);
                             shouldResetDisplay := false;
                             mainDisplay := t2;
                             operationDisplay := ind;
                             alerts := [] |})) |}).
  { rewrite app_comm_cons, app_assoc, run_app, E. cbn [run fold_left step].
    rewrite handleOperation_eq. unfold operator_outcome.
    rewrite pending_typed. state_fields. cbv zeta.
    rewrite (entering_parse _ _ He1), (entering_parse _ _ He2).
    reflexivity. }
  split; [rewrite Eop; reflexivity|].
  unfold chained_keys.
  replace (map Number ds1 ++ Operation o1 :: map Number ds2
             ++ Operation o2 :: map Number ds3 ++ [Equals])%list
    with ((map Number ds1 ++ Operation o1 :: map Number ds2 ++ [Operation o2])
            ++ map Number ds3 ++ [Equals])%list
    by (rewrite <- !app_assoc; cbn [app]; rewrite <- app_assoc; reflexivity).
  rewrite run_app, Eop, run_app.
  match goal with
  | |- context [run ?s (map Number ds3)] =>
      destruct (run_digits ds3 s H3 eq_refl) as (t3 & E3 & He3)
  end.
  rewrite E3. cbn [run fold_left step].
  rewrite handleEquals_eq. unfold equals_outcome.
  unfold set_shouldResetDisplay, updateDisplay. state_fields.
  rewrite pending_typed. state_fields.
  rewrite (entering_parse _ _ He3). reflexivity.
Qed.

Lemma chained_left_to_right_witness :
  let r := calculate (number_of_Z 2) (number_of_Z 3) "+" in
  mainDisplay
    (run initial_state
       (map Number [D2] ++ Operation Add :: map Number [D3]
          ++ [Operation Multiply]))
  = toString r /\
  mainDisplay (run initial_state (chained_keys [D2] Add [D3] Multiply [D4]))
  = toString (calculate r (number_of_Z 4) "*").
Proof.
  apply (chained_left_to_right [D2] [D3] [D4] Add Multiply); discriminate.
Defined.

(** [2 + 3 * 4 =] shows 20, not 14. *)
Example two_plus_three_times_four :
  mainDisplay (run initial_state (chained_keys [D2] Add [D3] Multiply [D4]))
  = "20".
Proof. vm_compute. reflexivity. Qed.

(** ** Typing a decimal *)

Lemma string_of_list_ascii_inj_text t cs :
  list_ascii_of_string t = cs -> t = string_of_list_ascii cs.
Proof. intros <-. symmetry. apply string_of_list_ascii_of_string. Qed.

Lemma digits_no_dot t :
  digits (list_ascii_of_string t) -> includes t "." = false.
Proof.
  induction t as [|c r IH]; intros H; [reflexivity|].
  cbn [list_ascii_of_string] in H. inversion H as [|? ? Hc Hr]; subst.
  rewrite includes_dot_cons, (IH Hr), orb_false_r.
  destruct (Ascii.eqb_spec c "."); [subst; discriminate Hc | reflexivity].
Qed.

(** The decimal point after an integer part. *)
Lemma type_point s t v :
  shouldResetDisplay s = false -> mainDisplay s = t -> entering t v ->
  handleDecimal s = updateDisplay (t ++ ".") s /\
  entering_fraction (t ++ ".") v 0.
Proof.
  intros Hr Ht (Hd & Hne & Hv). unfold handleDecimal. cbv zeta.
  rewrite Hr, Ht, (digits_no_dot t Hd). split; [reflexivity|].
  exists (list_ascii_of_string t), []. repeat split.
  - apply list_ascii_of_string_app.
  - exact Hd.
  - destruct t; [congruence | discriminate].
  - constructor.
  - rewrite app_nil_r. exact Hv.
Qed.

(** The decimal point first: the entry starts as "0.". *)
Lemma point_first : entering_fraction "0." 0 0.
Proof.
  exists ["0"%char], []. repeat split; try discriminate.
  - constructor; [reflexivity | constructor].
  - constructor.
Qed.

Lemma type_fraction_digit s t v k d :
  shouldResetDisplay s = false -> mainDisplay s = t ->
  entering_fraction t v k ->
  handleNumberClick (digit_text d) s = updateDisplay (t ++ digit_text d) s /\
  entering_fraction (t ++ digit_text d) (v * 10 + digit_number d) (S k).
Proof.
  intros Hr Ht (ip & fp & Et & Hi & Hne & Hf & Hv & Hk).
  destruct (digit_text_spec d) as (c & Ed & Hc & Hcv).
  unfold handleNumberClick. cbv zeta. rewrite Hr, Ht.
  assert (H0 : (t =? "0") = false).
  { apply String.eqb_neq. intros ->. cbn [list_ascii_of_string] in Et.
    destruct ip as [|a ip']; [discriminate Et|].
    injection Et as _ E. destruct ip'; discriminate E. }
  rewrite H0. cbn [andb]. split; [reflexivity|].
  exists ip, (fp ++ [c])%list. rewrite Ed. repeat split.
  - rewrite list_ascii_of_string_app, Et. cbn [list_ascii_of_string].
    rewrite <- app_assoc. reflexivity.
  - exact Hi.
  - exact Hne.
  - apply Forall_app. split; [exact Hf | constructor; [exact Hc | constructor]].
  - rewrite app_assoc, digits_value_app, Hv. cbn [List.length].
    unfold digits_value at 1. cbn [fold_left].
    change (10 ^ Z.of_nat 1) with 10. lia.
  - rewrite length_app, Hk. cbn. lia.
Qed.

Lemma run_fraction_digits fp : forall s t v k,
  shouldResetDisplay s = false -> mainDisplay s = t ->
  entering_fraction t v k ->
  exists t',
    run s (map Number fp) = updateDisplay t' s /\
    entering_fraction t'
      (fold_left (fun acc d => acc * 10 + digit_number d) fp v)
      (k + List.length fp).
Proof.
  induction fp as [|d fp IH]; intros s t v k Hr Ht He.
  - exists t. rewrite Nat.add_0_r. split; [|exact He].
    cbn [map run fold_left]. rewrite <- Ht. destruct s; reflexivity.
  - destruct (type_fraction_digit s t v k d Hr Ht He) as (E1 & He1).
    cbn [map run fold_left step]. rewrite E1.
    destruct (IH (updateDisplay (t ++ digit_text d) s) _ _ _ Hr eq_refl He1)
      as (t' & E' & He').
    exists t'. split.
    + unfold run in E'. rewrite E'. reflexivity.
    + cbn [List.length]. rewrite Nat.add_succ_r. exact He'.
Qed.

Lemma typed_value_app ip fp :
  typed_value (ip ++ fp)
  = fold_left (fun acc d => acc * 10 + digit_number d) fp (typed_value ip).
Proof. unfold typed_value. apply fold_left_app. Qed.

(** The text of a decimal entry reads as the decimal typed. *)
Lemma entering_fraction_parse t v k :
  entering_fraction t v k ->
  parseFloat t = round (inject_Z v / inject_Z (10 ^ Z.of_nat k)).
Proof.
  intros (ip & fp & Et & Hi & Hne & Hf & Hv & Hk). unfold parseFloat.
  rewrite Et. destruct ip as [|c r]; [congruence|].
  inversion Hi as [|? ? Hc Hr]; subst.
  change (parse_chars ((c :: r) ++ "."%char :: fp)%list)
    with (parse_chars ((if false then ["-"%char] else [])
                         ++ c :: (r ++ "."%char :: fp))%list).
  rewrite parse_chars_digit by exact Hc.
  change (c :: (r ++ "."%char :: fp))%list
    with ((c :: r) ++ "."%char :: fp)%list.
  rewrite <- (app_nil_r fp) at 1.
  rewrite parse_unsigned_fraction; try assumption; try exact I.
  rewrite parse_exponent_nil.
  set (v := digits_value ((c :: r) ++ fp)).
  assert (Hv0 : 0 <= v).
  { apply digits_value_nonneg, Forall_app. split; assumption. }
  set (k := Z.of_nat (List.length fp)).
  assert (Hk : 0 <= k) by (unfold k; lia).
  assert (Hq : (inject_Z v * (10 # 1) ^ (0 - k)
                == inject_Z v / inject_Z (10 ^ k))%Q).
  { rewrite pow10_Q by exact Hk. replace (0 - k) with (- k) by lia.
    rewrite Qpower_opp. reflexivity. }
  unfold decimal_value. destruct (Z.leb_spec v 0) as [H|H].
  - assert (v = 0) by lia.
    symmetry. apply (round_comp _ 0%Q). replace v with 0 by lia.
    unfold Qdiv. ring.
  - assert (Hpos : (0 < inject_Z v * (10 # 1) ^ (0 - k))%Q).
    { apply Qmult_lt_0_compat.
      - change 0%Q with (inject_Z 0). rewrite <- Zlt_Qlt. exact H.
      - apply Qpower_0_lt. reflexivity. }
    rewrite <- (round_comp _ _ Hq).
    change (inject_Z v * (10 # 1) ^ (0 - k))%Q
      with (signed false (inject_Z v * (10 # 1) ^ (0 - k))).
    rewrite round_signed by exact Hpos. reflexivity.
Qed.

(** X16: a typed decimal is read as typed.  From a state in which the next
    key starts a new number, typing integer digits (possibly none), the
    decimal point and fraction digits yields a display that [parseFloat]
    reads as the Number nearest to the decimal typed: the integer the
    digits write together, divided by ten to the number of fraction
    digits. *)
Theorem typed_decimal_is_read (s : state) (ip fp : list digit) :
  shouldResetDisplay s = true ->
  parseFloat (mainDisplay (run s (decimal_keys ip fp)))
  = round (inject_Z (typed_value (ip ++ fp))
           / inject_Z (10 ^ Z.of_nat (List.length fp))).
Proof.
  intros Hr. unfold decimal_keys. rewrite run_app. cbn [run fold_left step].
  fold (run (handleDecimal (run s (map Number ip))) (map Number fp)).
  rewrite typed_value_app.
  assert (Hpoint :
    exists t,
      handleDecimal (run s (map Number ip))
      = set_shouldResetDisplay false (updateDisplay t s) /\
      entering_fraction t (typed_value ip) 0).
  { destruct ip as [|d ip'].
    - exists "0.". split; [|exact point_first].
      cbn [map run fold_left]. unfold handleDecimal. cbv zeta. rewrite Hr.
      reflexivity.
    - destruct (run_digits (d :: ip') s ltac:(discriminate) Hr)
        as (t & Et & He).
      destruct (type_point (set_shouldResetDisplay false (updateDisplay t s))
                  t _ eq_refl eq_refl He) as (E & Hf).
      exists (t ++ "."). split; [|exact Hf]. rewrite Et, E. reflexivity. }
  destruct Hpoint as (t & Et & He). rewrite Et.
  destruct (run_fraction_digits fp
              (set_shouldResetDisplay false (updateDisplay t s))
              t _ _ eq_refl eq_refl He) as (t' & E' & He').
  rewrite E'. cbn [mainDisplay updateDisplay].
  apply (entering_fraction_parse _ _ _ He').
Qed.

Lemma typed_decimal_is_read_witness :
  parseFloat (mainDisplay (run initial_state (decimal_keys [D1; D0] [D5])))
  = round (inject_Z 105 / inject_Z 10).
Proof.
  exact (typed_decimal_is_read initial_state [D1; D0] [D5] eq_refl).
Defined.

(** ** Equals right after an operator *)

(** X17: equals right after an operator uses the display twice.  When an
    operator is pressed with nothing pending and [=] follows at once, the
    display value [x] is both operands: the result shown is [x op x]
    (so [5 + =] shows 10). *)
Theorem equals_after_operator (s : state) (op : string) :
  pending s = None -> In op operator_symbols ->
  let x := parseFloat (mainDisplay s) in
  let s' := handleEquals (handleOperation op s) in
  mainDisplay s' = toString (calculate x x op) /\
  previousValue s' = None /\ currentOperation s' = None /\
  operationDisplay s' = "" /\ shouldResetDisplay s' = true.
Proof.
  intros Hp Hop x s'. unfold s'.
  rewrite handleOperation_eq. unfold operator_outcome. rewrite Hp.
  rewrite handleEquals_eq. unfold equals_outcome, pending.
  cbn [previousValue currentOperation mainDisplay].
  rewrite (operator_symbols_truthy op Hop).
  repeat split.
Qed.

Lemma equals_after_operator_witness :
  let s := run initial_state [Number D5] in
  let x := parseFloat (mainDisplay s) in
  let s' := handleEquals (handleOperation "+" s) in
  mainDisplay s' = toString (calculate x x "+") /\
  previousValue s' = None /\ currentOperation s' = None /\
  operationDisplay s' = "" /\ shouldResetDisplay s' = true.
Proof.
  apply (equals_after_operator (run initial_state [Number D5]) "+").
  - vm_compute. reflexivity.
  - simpl. auto.
Defined.

(** ** What follows a square *)

Lemma mul_self_read v :
  parseFloat (toString (mul v v)) = mul v v.
Proof.
  rewrite (parseFloat_toString _ (mul_canonical v v)).
  pose proof (mul_self_sign v) as Hs.
  destruct (mul v v) as [| |[]|]; try reflexivity. discriminate Hs.
Qed.

(** X18: the square belongs to the entry.  After [handleSquare] on a
    display value [v], equals finishes a pending operation [(a, o)] with
    [v * v] as its right-hand operand; an operator press instead takes
    [v * v] as the new left-hand operand, without evaluating the pending
    operation and without an alert. *)
Theorem after_square (s : state) :
  let v := parseFloat (mainDisplay s) in
  (forall a o, pending s = Some (a, o) ->
     mainDisplay (handleEquals (handleSquare s))
     = toString (calculate a (mul v v) o)) /\
  (forall op,
     handleOperation op (handleSquare s)
     = {| previousValue := Some (mul v v);
          currentOperation := Some op;
          shouldResetDisplay := true;
          mainDisplay := toString (mul v v);
          operationDisplay := indicator_text (mul v v) op;
          alerts := alerts s |}).
Proof.
  intros v.
  assert (Hd : mainDisplay (handleSquare s) = toString (mul v v))
    by reflexivity.
  assert (Hr : shouldResetDisplay (handleSquare s) = true) by reflexivity.
  assert (Ha : alerts (handleSquare s) = alerts s) by reflexivity.
  split.
  - intros a o Hp. rewrite handleEquals_eq. unfold equals_outcome.
    assert (Hp' : pending (handleSquare s) = Some (a, o)) by exact Hp.
    rewrite Hp'. cbn [mainDisplay]. rewrite Hd, mul_self_read. reflexivity.
  - intros op. rewrite handleOperation_eq. unfold operator_outcome.
    rewrite Hr, Hd, Ha, mul_self_read.
    destruct (pending (handleSquare s)) as [[a o]|]; reflexivity.
Qed.

Lemma after_square_witness :
  mainDisplay (handleEquals (handleSquare five_plus_three_typed))
  = toString (calculate (parseFloat "5")
                (mul (parseFloat "3") (parseFloat "3")) "+").
Proof.
  exact (proj1 (after_square five_plus_three_typed) (parseFloat "5") "+"
           ltac:(vm_compute; reflexivity)).
Defined.

(** [5 + 3 square =] shows 14; [5 + 3 square -] keeps 9 and drops [5 +]. *)
Example square_then_equals_or_operator :
  mainDisplay (handleEquals (handleSquare five_plus_three_typed)) = "14" /\
  operationDisplay (handleOperation "-" (handleSquare five_plus_three_typed))
  = "9 -".
Proof. split; vm_compute; reflexivity. Qed.

